(** * BancorV2Pool: event and contract reconciliation of a pool's state

    A shallow embedding of [fastlane_bot/events/pools/bancor_v2.py].

    The pool's [state] and the caller's [data] are Python dictionaries that
    the methods mutate in place; they are modelled as finite maps from
    field names to Python values, threaded through a small state-and-
    exception monad, so that what an exception leaves behind in the store
    is part of the model.  Floats are IEEE-754 binary64 values
    ([spec_float] with precision 53 and [emax] 1024); the real numbers serve
    only to say how far a float is from an exact quotient. *)

From Stdlib Require Import ZArith Lia SpecFloat Reals Lra.
From stdpp Require Import gmap strings.

Local Open Scope Z_scope.

(** ** Python values *)

#[global] Instance spec_float_eq_dec : EqDecision spec_float.
Proof. solve_decision. Defined.

Inductive value :=
  | VNone
  | VInt (n : Z)
  | VFloat (f : spec_float)
  | VStr (s : string).

#[global] Instance value_eq_dec : EqDecision value.
Proof. solve_decision. Defined.

(** A [Dict[str, Any]].  The order in which a Python dict keeps its keys is
    not observed by any of the methods below except through [items()],
    whose body here writes distinct keys; it is left out of the model. *)
Abbreviation dict := (gmap string value).

Inductive exn :=
  | KeyError (k : string)
  | TypeError
  | OverflowError
  | ZeroDivisionError
  | ContractCallFailure (what : string).

#[global] Instance exn_eq_dec : EqDecision exn.
Proof. solve_decision. Defined.

(** ** binary64 arithmetic, as far as [fee / 1e6] needs it *)

Module Float.

Definition prec : Z := 53.
Definition emax : Z := 1024.

(** [float(n)] for a Python int: round to nearest, ties to even. *)
Definition of_int (n : Z) : spec_float := binary_normalize prec emax n 0 false.

Definition div (x y : spec_float) : spec_float := SFdiv prec emax x y.

(** The literal [1e6]. *)
Definition f1e6 : spec_float := S754_finite false 8589934592000000 (-33).

Definition is_zero (x : spec_float) : bool :=
  match x with S754_zero _ => true | _ => false end.

(** [float == int] compares the exact values. *)
Definition eq_int (x : spec_float) (n : Z) : bool :=
  match x with
  | S754_zero _ => n =? 0
  | S754_finite s m e =>
      let sm := cond_Zopp s (Zpos m) in
      if 0 <=? e then n =? sm * 2 ^ e else n * 2 ^ (- e) =? sm
  | _ => false
  end.

(** The real number a float stands for (0 for infinities and NaN, which
    [is_finite] tells apart). *)
Definition F2R (m e : Z) : R := (IZR m * powerRZ 2 e)%R.

Definition to_R (x : spec_float) : R :=
  match x with
  | S754_finite s m e => F2R (cond_Zopp s (Zpos m)) e
  | _ => 0%R
  end.

Definition is_finite (x : spec_float) : bool :=
  match x with
  | S754_finite _ _ _ | S754_zero _ => true
  | _ => false
  end.

(** The relative tolerance within which a quotient is taken to be equal to
    the exact one: [2^-50], about [8.9e-16]. *)
Definition rel_tol : R := (/ IZR (2 ^ 50))%R.

End Float.

(** [a == b] on the values above. *)
Definition py_eq (a b : value) : bool :=
  match a, b with
  | VNone, VNone => true
  | VInt x, VInt y => x =? y
  | VStr x, VStr y => bool_decide (x = y)
  | VFloat x, VFloat y => SFeqb x y
  | VInt x, VFloat y => Float.eq_int y x
  | VFloat x, VInt y => Float.eq_int x y
  | _, _ => false
  end.

(** [x / y] where [y] is a float. *)
Definition py_truediv (x : value) (y : spec_float) : exn + value :=
  match x with
  | VInt n =>
      match Float.of_int n with
      | S754_infinity _ => inl OverflowError
      | fx => if Float.is_zero y then inl ZeroDivisionError
              else inr (VFloat (Float.div fx y))
      end
  | VFloat fx => if Float.is_zero y then inl ZeroDivisionError
                 else inr (VFloat (Float.div fx y))
  | VNone | VStr _ => inl TypeError
  end.

(** ** State and exceptions *)

Definition M (S A : Type) : Type := S → S * (exn + A).

#[global] Instance M_ret {S} : MRet (M S) := λ A a s, (s, inr a).
#[global] Instance M_bind {S} : MBind (M S) := λ A B f m s,
  match m s with
  | (s', inl e) => (s', inl e)
  | (s', inr a) => f a s'
  end.

Definition lift {S A} (r : exn + A) : M S A := λ s, (s, r).

(** [d[k]] *)
Definition subscript (d : dict) (k : string) : exn + value :=
  match d !! k with
  | Some v => inr v
  | None => inl (KeyError k)
  end.

(** [k in d] *)
Definition py_in (k : string) (d : dict) : bool := bool_decide (is_Some (d !! k)).

(** [d[k]] and [d[k] = v] on a dictionary held in the state. *)
Definition getitem (k : string) : M dict value := λ d, (d, subscript d k).
Definition setitem (k : string) (v : value) : M dict unit := λ d, (<[k:=v]> d, inr ()).

(** [for key, value in d.items(): body(key, value)] *)
Definition for_items {S} (d : dict) (body : string → value → M S unit) : M S unit :=
  foldr (λ kv rest, body kv.1 kv.2 ;; rest) (mret ()) (map_to_list d).

(** The two dictionaries [update_from_event] works on: [self.state] and the
    caller's [data], which it fills in and returns.  They are taken to be
    distinct objects. *)
Record heap := Heap { state : dict; data : dict }.

Definition on_state {A} (m : M dict A) : M heap A := λ h,
  let '(s, r) := m (state h) in (Heap s (data h), r).
Definition on_data {A} (m : M dict A) : M heap A := λ h,
  let '(d, r) := m (data h) in (Heap (state h) d, r).

(** ** The event record and the contract handle *)

(** Of an event record only [event["args"]] is read; [None] stands for a
    record without that key. *)
Record event := Event { ev_args : option dict }.

Definition event_getitem_args (ev : event) : exn + dict :=
  match ev_args ev with
  | Some a => inr a
  | None => inl (KeyError "args")
  end.

(** What the three read-only calls on [contract.caller] return (or raise)
    during one call of [update_from_contract]. *)
Record Contract := {
  reserveBalances : exn + (value * value);
  conversionFee : exn + value;
  anchor : exn + value;
}.

(** ** BancorV2Pool *)

Definition exchange_name : string := "bancor_v2".

Definition unique_key : string := "address".

Definition event_matches_format {S} (event : event) : M S bool :=
  event_args ← lift (event_getitem_args event);
  mret (py_in "_rateN" event_args).

Definition update_from_event (event_args : event) : M heap dict :=
  tkn0 ← on_state (getitem "tkn0_address");
  tkn1 ← on_state (getitem "tkn1_address");
  event_args ← lift (event_getitem_args event_args);
  token1 ← lift (subscript event_args "_token1");
  matched ← (if py_eq token1 tkn0
             then token2 ← lift (subscript event_args "_token2");
                  mret (py_eq token2 tkn1)
             else mret false);
  (if matched : bool
   then rateN ← lift (subscript event_args "_rateN");
        on_data (setitem "tkn0_balance" rateN);;
        rateD ← lift (subscript event_args "_rateD");
        on_data (setitem "tkn1_balance" rateD)
   else b0 ← on_state (getitem "tkn0_balance");
        on_data (setitem "tkn0_balance" b0);;
        b1 ← on_state (getitem "tkn0_balance");
        on_data (setitem "tkn1_balance" b1));;
  items ← on_data (λ d, (d, inr d));
  for_items items (λ key value, on_state (setitem key value));;
  v ← on_state (getitem "anchor"); on_data (setitem "anchor" v);;
  v ← on_state (getitem "cid"); on_data (setitem "cid" v);;
  v ← on_state (getitem "fee"); on_data (setitem "fee" v);;
  v ← on_state (getitem "fee_float"); on_data (setitem "fee_float" v);;
  v ← on_state (getitem "exchange_name"); on_data (setitem "exchange_name" v);;
  on_data (λ d, (d, inr d)).

Definition update_from_contract (contract : Contract) : M dict dict :=
  '(reserve0, reserve1) ← lift (reserveBalances contract);
  fee ← lift (conversionFee contract);
  fee_float ← lift (py_truediv fee Float.f1e6);
  exchange_name ← getitem "exchange_name";
  address ← getitem "address";
  anchor ← lift (anchor contract);
  let params : dict :=
    list_to_map [("fee", fee); ("fee_float", fee_float);
                 ("exchange_name", exchange_name); ("address", address);
                 ("anchor", anchor);
                 ("tkn0_balance", reserve0); ("tkn1_balance", reserve1)] in
  for_items params setitem;;
  mret params.

(** ** Vocabulary of the statements *)

(** *** The phases of [update_from_event] *)

(** The two values the branch on the token pair stores under
    [tkn0_balance] and [tkn1_balance] of [data]. *)
Inductive balances_of (ev : event) (st : dict) : value → value → Prop :=
  | balances_matched a tkn0 tkn1 token1 token2 rateN rateD :
      st !! "tkn0_address" = Some tkn0 → st !! "tkn1_address" = Some tkn1 →
      ev_args ev = Some a →
      a !! "_token1" = Some token1 → py_eq token1 tkn0 = true →
      a !! "_token2" = Some token2 → py_eq token2 tkn1 = true →
      a !! "_rateN" = Some rateN → a !! "_rateD" = Some rateD →
      balances_of ev st rateN rateD
  | balances_unmatched a tkn0 tkn1 token1 b0 :
      st !! "tkn0_address" = Some tkn0 → st !! "tkn1_address" = Some tkn1 →
      ev_args ev = Some a →
      a !! "_token1" = Some token1 →
      (py_eq token1 tkn0 = false ∨
       ∃ token2, a !! "_token2" = Some token2 ∧ py_eq token2 tkn1 = false) →
      st !! "tkn0_balance" = Some b0 →
      balances_of ev st b0 b0.

Definition with_balances (b0 b1 : value) (seed : dict) : dict :=
  <["tkn1_balance":=b1]> (<["tkn0_balance":=b0]> seed).

(** The fields read back from the store once it has been written. *)
Definition read_back_keys : list string :=
  ["anchor"; "cid"; "fee"; "fee_float"; "exchange_name"].

(** The keys whose absence raises before the store is written. *)
Definition early_keys : list string :=
  ["tkn0_address"; "tkn1_address"; "args"; "_token1"; "_token2";
   "_rateN"; "_rateD"; "tkn0_balance"].

Inductive read_back (st d : dict) : dict → Prop :=
  | read_back_intro an ci fe ff en :
      st !! "anchor" = Some an → st !! "cid" = Some ci →
      st !! "fee" = Some fe → st !! "fee_float" = Some ff →
      st !! "exchange_name" = Some en →
      read_back st d
        (<["exchange_name":=en]> (<["fee_float":=ff]> (<["fee":=fe]>
          (<["cid":=ci]> (<["anchor":=an]> d))))).

(** *** The delta of [update_from_contract] *)

Definition contract_params (fee fee_float exchange_name address anchor
                            reserve0 reserve1 : value) : dict :=
  list_to_map [("fee", fee); ("fee_float", fee_float);
               ("exchange_name", exchange_name); ("address", address);
               ("anchor", anchor);
               ("tkn0_balance", reserve0); ("tkn1_balance", reserve1)].

Definition contract_keys : gset string :=
  list_to_set ["fee"; "fee_float"; "exchange_name"; "address"; "anchor";
               "tkn0_balance"; "tkn1_balance"].

(** The keys every delta is said to have. *)
Definition delta_keys : list string :=
  ["cid"; "fee"; "fee_float"; "exchange_name"; "tkn0_balance"; "tkn1_balance"].

(** The dictionary a call returned (empty when it raised). *)
Definition returned (r : exn + dict) : dict :=
  match r with
  | inr d => d
  | inl _ => ∅
  end.

(** ** Sample pools, events and contract reads *)

Module Sample.

(** The pool of the scenarios, as the store literally lists it. *)
Definition pool_listed : dict :=
  list_to_map [("tkn0_address", VStr "0xA"); ("tkn1_address", VStr "0xB");
               ("tkn0_balance", VInt 100); ("tkn1_balance", VInt 200);
               ("fee", VInt 3000); ("cid", VStr "p1")].

(** [3000 / 1e6] *)
Definition fee_float_3000 : spec_float :=
  S754_finite false 6917529027641082 (-61).

(** The same pool once a contract read has filled in the other fields. *)
Definition pool_p1 : dict :=
  list_to_map [("fee_float", VFloat fee_float_3000);
               ("exchange_name", VStr exchange_name);
               ("address", VStr "0xPool"); ("anchor", VStr "0xAnchor")]
  ∪ pool_listed.

Definition args_AB : dict :=
  list_to_map [("_token1", VStr "0xA"); ("_token2", VStr "0xB");
               ("_rateN", VInt 150); ("_rateD", VInt 250)].
Definition event_AB : event := Event (Some args_AB).

Definition args_BA : dict :=
  list_to_map [("_token1", VStr "0xB"); ("_token2", VStr "0xA");
               ("_rateN", VInt 999); ("_rateD", VInt 888)].
Definition event_BA : event := Event (Some args_BA).

Definition contract_read : Contract :=
  {| reserveBalances := inr (VInt 1000, VInt 2000);
     conversionFee := inr (VInt 3000);
     anchor := inr (VStr "0xAnchor") |}.

(** A pool that has only its constructor-given tag and address. *)
Definition pool_fresh : dict :=
  list_to_map [("exchange_name", VStr exchange_name);
               ("address", VStr "0xPool")].

End Sample.

(** ** Further vocabulary *)

(** Lines 77-82 on their own: the identity fields are read back from the
    store into [data], which is then returned. *)
Definition read_back_run : M heap dict :=
  v ← on_state (getitem "anchor"); on_data (setitem "anchor" v);;
  v ← on_state (getitem "cid"); on_data (setitem "cid" v);;
  v ← on_state (getitem "fee"); on_data (setitem "fee" v);;
  v ← on_state (getitem "fee_float"); on_data (setitem "fee_float" v);;
  v ← on_state (getitem "exchange_name"); on_data (setitem "exchange_name" v);;
  on_data (λ d, (d, inr d)).

(** More events and contract reads. *)
Module Edge.

(** The matching pair, without the rates. *)
Definition args_no_rates : dict :=
  list_to_map [("_token1", VStr "0xA"); ("_token2", VStr "0xB")].
(** The matching pair and [_rateN], without [_rateD]. *)
Definition args_no_rateD : dict :=
  list_to_map [("_token1", VStr "0xA"); ("_token2", VStr "0xB");
               ("_rateN", VInt 150)].
(** Another pool's event, with nothing but its first token. *)
Definition args_other : dict := list_to_map [("_token1", VStr "0xC")].
Definition contract_other : Contract :=
  {| reserveBalances := inr (VInt 7, VInt 9);
     conversionFee := inr (VInt 2000);
     anchor := inr (VStr "0xAnchor2") |}.

End Edge.

(** ** The model on the samples *)

Example f1e6_is_a_million : Float.of_int 1000000 = Float.f1e6.
Proof. reflexivity. Qed.

Example truediv_3000 :
  py_truediv (VInt 3000) Float.f1e6 = inr (VFloat Sample.fee_float_3000).
Proof. reflexivity. Qed.

Example truediv_overflow : py_truediv (VInt (2 ^ 1024)) Float.f1e6 = inl OverflowError.
Proof. by vm_compute. Qed.

Example truediv_str : py_truediv (VStr "3000") Float.f1e6 = inl TypeError.
Proof. reflexivity. Qed.

Example eq_int_float : py_eq (VInt 1000000) (VFloat Float.f1e6) = true.
Proof. reflexivity. Qed.

Example eq_str_case : py_eq (VStr "0xa") (VStr "0xA") = false.
Proof. reflexivity. Qed.

Example matches_format_AB :
  (event_matches_format Sample.event_AB ()).2 = inr true.
Proof. reflexivity. Qed.

Example matches_format_no_args :
  (event_matches_format (Event None) ()).2 = inl (KeyError "args").
Proof. reflexivity. Qed.

Example event_AB_on_p1 :
  let r := update_from_event Sample.event_AB (Heap Sample.pool_p1 ∅) in
  r.2 = inr (data r.1) ∧
  data r.1 !! "tkn0_balance" = Some (VInt 150) ∧
  data r.1 !! "tkn1_balance" = Some (VInt 250) ∧
  data r.1 !! "cid" = Some (VStr "p1").
Proof.
  intros r. split; [vm_cast_no_check (eq_refl r.2)|]. by vm_compute.
Qed.

Example contract_read_on_fresh :
  let r := update_from_contract Sample.contract_read Sample.pool_fresh in
  returned r.2 !! "fee" = Some (VInt 3000) ∧
  returned r.2 !! "fee_float" = Some (VFloat Sample.fee_float_3000) ∧
  r.1 !! "tkn0_balance" = Some (VInt 1000) ∧
  r.1 !! "tkn1_balance" = Some (VInt 2000) ∧
  r.1 !! "tkn0_address" = None.
Proof. by vm_compute. Qed.

(** ** Running the loop and the monad *)

Section Loop.
Context {S : Type} (get : S → dict) (put : dict → S → S).
Context (body : string → value → M S unit).
Hypothesis put_get : ∀ s, put (get s) s = s.
Hypothesis put_put : ∀ d d' s, put d (put d' s) = put d s.
Hypothesis get_put : ∀ d s, get (put d s) = d.
Hypothesis body_writes :
  ∀ k v s, body k v s = (put (<[k:=v]> (get s)) s, inr ()).

(** A loop over [d.items()] whose body stores each item in a dictionary of
    the state leaves that dictionary updated with [d]: the keys of [d] are
    distinct, so the order of the iteration does not show. *)
Lemma for_items_writes (d : dict) (s : S) :
  for_items d body s = (put (d ∪ get s) s, inr ()).
Proof.
  unfold for_items.
  rewrite <- (list_to_map_to_list d) at 2.
  pose proof (NoDup_fst_map_to_list d) as Hnd.
  revert Hnd s. generalize (map_to_list d) as l.
  induction l as [|[k v] l IH]; intros Hnd s; simpl.
  - by rewrite (left_id_L ∅ (∪)), put_get.
  - apply NoDup_cons in Hnd as [Hk Hnd].
    unfold mbind, M_bind at 1. rewrite body_writes, (IH Hnd).
    rewrite put_put, get_put. do 2 f_equal.
    rewrite <- insert_union_l, <- insert_union_r; [done|].
    by apply not_elem_of_list_to_map_1.
Qed.
End Loop.

Lemma for_items_setitem (d st : dict) :
  for_items d setitem st = (d ∪ st, inr ()).
Proof. by apply (for_items_writes (λ d, d) (λ d _, d)). Qed.

Lemma for_items_on_state (d : dict) (h : heap) :
  for_items d (λ key value, on_state (setitem key value)) h
  = (Heap (d ∪ state h) (data h), inr ()).
Proof.
  apply (for_items_writes state (λ d h, Heap d (data h))); try done.
  by intros [].
Qed.

Ltac run_unfold :=
  unfold mbind, M_bind, mret, M_ret, on_state, on_data, getitem, setitem, lift,
    subscript, event_getitem_args in *.

Ltac run_step :=
  match goal with
  | |- context [for_items _ _ (Heap _ _)] => rewrite for_items_on_state
  | H : context [for_items _ _ (Heap _ _)] |- _ => rewrite for_items_on_state in H
  | |- context [for_items _ setitem _] => rewrite for_items_setitem
  | H : context [for_items _ setitem _] |- _ => rewrite for_items_setitem in H
  | |- context [match ?m !! ?k with _ => _ end] => destruct (m !! k) eqn:?
  | H : context [match ?m !! ?k with _ => _ end] |- _ => destruct (m !! k) eqn:?
  | |- context [match ev_args ?e with _ => _ end] => destruct (ev_args e) eqn:?
  | H : context [match ev_args ?e with _ => _ end] |- _ => destruct (ev_args e) eqn:?
  | |- context [if py_eq ?a ?b then _ else _] => destruct (py_eq a b) eqn:?
  | H : context [if py_eq ?a ?b then _ else _] |- _ => destruct (py_eq a b) eqn:?
  end; simpl in *.

Ltac in_list :=
  repeat first [apply list_elem_of_here | apply list_elem_of_further].

(** ** What [update_from_event] does, phase by phase *)

(** Success: the balances are put into [data], [data] is written into the
    store, and the five identity fields are read back from that store. *)
Lemma update_from_event_inr ev st seed h' delta :
  update_from_event ev (Heap st seed) = (h', inr delta) ↔
  ∃ b0 b1, balances_of ev st b0 b1 ∧
    h' = Heap (with_balances b0 b1 seed ∪ st) delta ∧
    read_back (with_balances b0 b1 seed ∪ st) (with_balances b0 b1 seed) delta.
Proof.
  unfold update_from_event, with_balances. split.
  - run_unfold. simpl. intros H.
    repeat run_step; simplify_eq.
    all: eexists _, _; (split;
      [first [ by eapply balances_matched
             | eapply balances_unmatched; [done..| |done]; by eauto ] |]).
    all: split; [done|]; by constructor.
  - intros (b0 & b1 & Hb & -> & Hrb).
    destruct Hrb as [an ci fe ff en Han Hci Hfe Hff Hen].
    run_unfold. simpl.
    destruct Hb as [a tkn0 tkn1 t1 t2 rn rd H0 H1 Ha Ht1 He1 Ht2 He2 Hn Hd
                   |a tkn0 tkn1 t1 b0 H0 H1 Ha Ht1 Hne Hb].
    + rewrite H0, H1, Ha. simpl. rewrite Ht1, He1, Ht2. simpl.
      rewrite He2, Hn, Hd. simpl. rewrite for_items_on_state. simpl.
      by rewrite Han, Hci, Hfe, Hff, Hen.
    + rewrite H0, H1, Ha. simpl. rewrite Ht1.
      destruct Hne as [->|(t2 & Ht2 & He2)]; simpl.
      * rewrite Hb. simpl. rewrite for_items_on_state. simpl.
        by rewrite Han, Hci, Hfe, Hff, Hen.
      * rewrite Ht2. destruct (py_eq t1 tkn0); simpl; rewrite ?He2; simpl.
        all: rewrite Hb; simpl; rewrite for_items_on_state; simpl.
        all: by rewrite Han, Hci, Hfe, Hff, Hen.
Qed.

(** Failure: either a lookup before the write loop raised and the store is
    as it was, or the read-back raised and the store has been written. *)
Lemma update_from_event_inl ev st seed h' e :
  update_from_event ev (Heap st seed) = (h', inl e) →
  (state h' = st ∧ ∃ k, k ∈ early_keys ∧ e = KeyError k) ∨
  (∃ b0 b1 k, balances_of ev st b0 b1 ∧
     state h' = with_balances b0 b1 seed ∪ st ∧
     k ∈ read_back_keys ∧ state h' !! k = None ∧ e = KeyError k).
Proof.
  unfold update_from_event, with_balances.
  run_unfold. simpl. intros H.
  repeat run_step; simplify_eq.
  all: try (left; split; [done|]; eexists; split; [|done]; by in_list).
  all: right; eexists _, _, _; (split;
      [first [ by eapply balances_matched
             | eapply balances_unmatched; [done..| |done]; by eauto ] |]).
  all: simpl; split; [done|]; split; [|done]; by in_list.
Qed.

(** ** What [update_from_contract] does *)

Lemma update_from_contract_inr c st st' delta :
  update_from_contract c st = (st', inr delta) ↔
  ∃ r0 r1 fee ff en ad an,
    reserveBalances c = inr (r0, r1) ∧ conversionFee c = inr fee ∧
    py_truediv fee Float.f1e6 = inr ff ∧
    st !! "exchange_name" = Some en ∧ st !! "address" = Some ad ∧
    anchor c = inr an ∧
    delta = contract_params fee ff en ad an r0 r1 ∧ st' = delta ∪ st.
Proof.
  unfold update_from_contract, contract_params. run_unfold. split.
  - intros H.
    destruct (reserveBalances c) as [?|[r0 r1]] eqn:Hr; [done|].
    destruct (conversionFee c) as [?|fee] eqn:Hfee; [done|].
    destruct (py_truediv fee Float.f1e6) as [?|ff] eqn:Hff; [done|].
    destruct (st !! "exchange_name") as [en|] eqn:Hen; [|done].
    destruct (st !! "address") as [ad|] eqn:Had; [|done].
    destruct (anchor c) as [?|an] eqn:Han; [done|].
    rewrite for_items_setitem in H. simplify_eq.
    by eexists _, _, _, _, _, _, _.
  - intros (r0 & r1 & fee & ff & en & ad & an & -> & -> & -> & -> & -> & -> & -> & ->).
    by rewrite for_items_setitem.
Qed.

(** Every read comes before the first write, so a call that raises has not
    touched the store. *)
Lemma update_from_contract_inl c st st' e :
  update_from_contract c st = (st', inl e) → st' = st.
Proof.
  unfold update_from_contract. run_unfold. intros H.
  destruct (reserveBalances c) as [?|[r0 r1]]; [by simplify_eq|].
  destruct (conversionFee c) as [?|fee]; [by simplify_eq|].
  destruct (py_truediv fee Float.f1e6) as [?|ff]; [by simplify_eq|].
  destruct (st !! "exchange_name") as [en|]; [|by simplify_eq].
  destruct (st !! "address") as [ad|]; [|by simplify_eq].
  destruct (anchor c) as [?|an]; [by simplify_eq|].
  by rewrite for_items_setitem in H.
Qed.

Lemma dom_contract_params fee ff en ad an r0 r1 :
  dom (contract_params fee ff en ad an r0 r1) = contract_keys.
Proof.
  unfold contract_params, contract_keys. simpl. rewrite !dom_insert_L, dom_empty_L.
  set_solver.
Qed.

(** Lookups in the dictionaries of the phases. *)
Lemma with_balances_tkn0 b0 b1 d : with_balances b0 b1 d !! "tkn0_balance" = Some b0.
Proof. unfold with_balances. by rewrite lookup_insert_ne, lookup_insert_eq. Qed.

Lemma with_balances_tkn1 b0 b1 d : with_balances b0 b1 d !! "tkn1_balance" = Some b1.
Proof. unfold with_balances. by rewrite lookup_insert_eq. Qed.

Lemma with_balances_other b0 b1 d k :
  k ≠ "tkn0_balance" → k ≠ "tkn1_balance" → with_balances b0 b1 d !! k = d !! k.
Proof. intros. unfold with_balances. by rewrite !lookup_insert_ne. Qed.

Lemma written_tkn0 b0 b1 d st : (with_balances b0 b1 d ∪ st) !! "tkn0_balance" = Some b0.
Proof. apply lookup_union_Some_l, with_balances_tkn0. Qed.

Lemma written_tkn1 b0 b1 d st : (with_balances b0 b1 d ∪ st) !! "tkn1_balance" = Some b1.
Proof. apply lookup_union_Some_l, with_balances_tkn1. Qed.

Lemma written_other b0 b1 d st k :
  k ≠ "tkn0_balance" → k ≠ "tkn1_balance" →
  (with_balances b0 b1 d ∪ st) !! k = (d ∪ st) !! k.
Proof. intros. by rewrite !lookup_union, with_balances_other. Qed.

Lemma read_back_at st d delta k :
  read_back st d delta → k ∈ read_back_keys →
  is_Some (delta !! k) ∧ delta !! k = st !! k.
Proof.
  intros [an ci fe ff en Han Hci Hfe Hff Hen] Hk.
  unfold read_back_keys in Hk. rewrite !elem_of_cons, elem_of_nil in Hk.
  destruct Hk as [->|[->|[->|[->|[->|[]]]]]]; by simplify_map_eq.
Qed.

Lemma read_back_other st d delta k :
  read_back st d delta → k ∉ read_back_keys → delta !! k = d !! k.
Proof.
  intros [an ci fe ff en Han Hci Hfe Hff Hen] Hk.
  unfold read_back_keys in Hk. rewrite !not_elem_of_cons in Hk.
  destruct Hk as (? & ? & ? & ? & ? & _). by rewrite !lookup_insert_ne.
Qed.

Lemma balance_not_read_back k :
  k = "tkn0_balance" ∨ k = "tkn1_balance" → k ∉ read_back_keys.
Proof.
  unfold read_back_keys. rewrite !not_elem_of_cons.
  intros [->| ->]; repeat split; (done || apply not_elem_of_nil).
Qed.

(** ** The non-matching event *)

(** On a non-matching event that goes through, both balance fields of the
    delta and of the store hold the store's previous [tkn0_balance]. *)
Lemma update_from_event_unmatched ev st seed a tkn0 tkn1 token1 h' delta :
  st !! "tkn0_address" = Some tkn0 → st !! "tkn1_address" = Some tkn1 →
  ev_args ev = Some a → a !! "_token1" = Some token1 →
  (py_eq token1 tkn0 = false ∨
   ∃ token2, a !! "_token2" = Some token2 ∧ py_eq token2 tkn1 = false) →
  update_from_event ev (Heap st seed) = (h', inr delta) →
  delta !! "tkn0_balance" = st !! "tkn0_balance" ∧
  delta !! "tkn1_balance" = st !! "tkn0_balance" ∧
  state h' !! "tkn0_balance" = st !! "tkn0_balance" ∧
  state h' !! "tkn1_balance" = st !! "tkn0_balance".
Proof.
  intros H0 H1 Ha Ht1 Hne (b0 & b1 & Hb & -> & Hrb)%update_from_event_inr.
  assert (st !! "tkn0_balance" = Some b0 ∧ b1 = b0) as [-> ->].
  { inversion Hb; simplify_eq; [|done].
    destruct Hne as [?|(? & ? & ?)]; simplify_eq; congruence. }
  rewrite !(read_back_other _ _ _ _ Hrb) by (apply balance_not_read_back; auto).
  simpl. by rewrite written_tkn0, written_tkn1, with_balances_tkn0, with_balances_tkn1.
Qed.

(** C1 (the code departs from it): on the mismatched-order scenario the call
    returns, [tkn0_balance] stays 100, and [tkn1_balance], which was 200,
    becomes 100 in the delta and in the store. *)
Theorem update_from_event_mismatched_scenario :
  ∃ st' delta,
    update_from_event Sample.event_BA (Heap Sample.pool_p1 ∅)
      = (Heap st' delta, inr delta) ∧
    Sample.pool_p1 !! "tkn0_balance" = Some (VInt 100) ∧
    Sample.pool_p1 !! "tkn1_balance" = Some (VInt 200) ∧
    delta !! "tkn0_balance" = Some (VInt 100) ∧
    delta !! "tkn1_balance" = Some (VInt 100) ∧
    st' !! "tkn0_balance" = Some (VInt 100) ∧
    st' !! "tkn1_balance" = Some (VInt 100).
Proof.
  set (r := update_from_event Sample.event_BA (Heap Sample.pool_p1 ∅)).
  exists (state r.1), (data r.1).
  split; [vm_cast_no_check (eq_refl r)|].
  vm_compute. by repeat split.
Qed.

(** ** The matching event *)

Lemma read_back_total st d :
  (∀ k, k ∈ read_back_keys → is_Some (st !! k)) → ∃ delta, read_back st d delta.
Proof.
  intros H.
  destruct (H "anchor") as [an Han]; [by in_list|].
  destruct (H "cid") as [ci Hci]; [by in_list|].
  destruct (H "fee") as [fe Hfe]; [by in_list|].
  destruct (H "fee_float") as [ff Hff]; [by in_list|].
  destruct (H "exchange_name") as [en Hen]; [by in_list|].
  eexists. by constructor.
Qed.

Lemma read_back_key_not_balance k :
  k ∈ read_back_keys → k ≠ "tkn0_balance" ∧ k ≠ "tkn1_balance".
Proof.
  intros Hk. split; intros ->; revert Hk; by apply balance_not_read_back; auto.
Qed.

(** C3: when the event's [_token1] and [_token2] equal the pool's stored
    pair, in that order, and the event carries [_rateN] and [_rateD] (and
    the identity fields are there to be read back), [update_from_event]
    returns a delta whose [tkn0_balance] and [tkn1_balance] are the event's
    [_rateN] and [_rateD]; the store holds the same two values, and the
    delta's [cid] is the one stored in the pool, which is the cid the pool
    had before the call whenever the seed carries none. *)
Theorem update_from_event_matched ev st seed a A B token1 token2 rateN rateD :
  st !! "tkn0_address" = Some A → st !! "tkn1_address" = Some B →
  ev_args ev = Some a →
  a !! "_token1" = Some token1 → a !! "_token2" = Some token2 →
  py_eq token1 A = true → py_eq token2 B = true →
  a !! "_rateN" = Some rateN → a !! "_rateD" = Some rateD →
  (∀ k, k ∈ read_back_keys → is_Some (seed !! k) ∨ is_Some (st !! k)) →
  ∃ st' delta,
    update_from_event ev (Heap st seed) = (Heap st' delta, inr delta) ∧
    delta !! "tkn0_balance" = Some rateN ∧ delta !! "tkn1_balance" = Some rateD ∧
    st' !! "tkn0_balance" = Some rateN ∧ st' !! "tkn1_balance" = Some rateD ∧
    delta !! "cid" = st' !! "cid" ∧
    (seed !! "cid" = None → delta !! "cid" = st !! "cid").
Proof.
  intros H0 H1 Ha Ht1 Ht2 He1 He2 Hn Hd Hid.
  assert (balances_of ev st rateN rateD) as Hb by by eapply balances_matched.
  destruct (read_back_total (with_balances rateN rateD seed ∪ st)
              (with_balances rateN rateD seed)) as [delta Hrb].
  { intros k Hk. destruct (read_back_key_not_balance k Hk).
    rewrite written_other, lookup_union by done.
    destruct (Hid k Hk) as [[v ->]|[v ->]]; [by destruct (st !! k)|].
    by destruct (seed !! k). }
  exists (with_balances rateN rateD seed ∪ st), delta.
  split; [apply update_from_event_inr; by eauto|].
  rewrite !(read_back_other _ _ _ _ Hrb) by (apply balance_not_read_back; auto).
  rewrite written_tkn0, written_tkn1, with_balances_tkn0, with_balances_tkn1.
  destruct (read_back_at _ _ _ "cid" Hrb) as [_ Hcid]; [by in_list|].
  repeat split; [done|]. intros Hseed.
  by rewrite Hcid, written_other, lookup_union, Hseed, (left_id_L None _).
Qed.

Lemma update_from_event_matched_witness :
  ∃ st' delta,
    update_from_event Sample.event_AB (Heap Sample.pool_p1 ∅)
      = (Heap st' delta, inr delta) ∧
    delta !! "tkn0_balance" = Some (VInt 150) ∧
    delta !! "tkn1_balance" = Some (VInt 250) ∧
    st' !! "tkn0_balance" = Some (VInt 150) ∧
    st' !! "tkn1_balance" = Some (VInt 250) ∧
    delta !! "cid" = st' !! "cid" ∧
    ((∅ : dict) !! "cid" = None → delta !! "cid" = Some (VStr "p1")).
Proof.
  apply (update_from_event_matched Sample.event_AB Sample.pool_p1 ∅
           Sample.args_AB (VStr "0xA") (VStr "0xB") (VStr "0xA") (VStr "0xB"));
    try reflexivity.
  intros k Hk. right. unfold read_back_keys in Hk.
  rewrite !elem_of_cons, elem_of_nil in Hk.
  destruct Hk as [->|[->|[->|[->|[->|[]]]]]]; vm_compute; eauto.
Defined.

(** ** The keys of a delta *)

(** C2 as stated fails on [update_from_contract]: the delta of a contract
    read has no [cid] entry. *)
Lemma update_from_contract_delta_without_cid :
  ∃ st' delta,
    update_from_contract Sample.contract_read Sample.pool_p1 = (st', inr delta) ∧
    "cid" ∈ delta_keys ∧ delta !! "cid" = None.
Proof.
  set (r := update_from_contract Sample.contract_read Sample.pool_p1).
  exists r.1, (returned r.2).
  split; [vm_cast_no_check (eq_refl r)|].
  split; [by in_list|]. by vm_compute.
Qed.

(** C2, amended: a delta returned by [update_from_event] has all six keys;
    a delta returned by [update_from_contract] has [fee], [fee_float],
    [exchange_name], [tkn0_balance] and [tkn1_balance] (its keys are exactly
    those five, [address] and [anchor]) and no [cid]. *)
Theorem delta_keys_present :
  (∀ ev st seed h' delta,
     update_from_event ev (Heap st seed) = (h', inr delta) →
     ∀ k, k ∈ delta_keys → is_Some (delta !! k)) ∧
  (∀ c st st' delta,
     update_from_contract c st = (st', inr delta) →
     (∀ k, k ∈ delta_keys → k ≠ "cid" → is_Some (delta !! k)) ∧
     dom delta = contract_keys ∧ delta !! "cid" = None).
Proof.
  split.
  - intros ev st seed h' delta (b0 & b1 & Hb & -> & Hrb)%update_from_event_inr k Hk.
    unfold delta_keys in Hk. rewrite !elem_of_cons, elem_of_nil in Hk.
    destruct Hk as [->|[->|[->|[->|[->|[->|[]]]]]]].
    1-4: by apply (read_back_at _ _ _ _ Hrb); in_list.
    + rewrite (read_back_other _ _ _ _ Hrb) by (apply balance_not_read_back; auto).
      by rewrite with_balances_tkn0.
    + rewrite (read_back_other _ _ _ _ Hrb) by (apply balance_not_read_back; auto).
      by rewrite with_balances_tkn1.
  - intros c st st' delta
      (r0 & r1 & fee & ff & en & ad & an & _ & _ & _ & _ & _ & _ & -> & _)%update_from_contract_inr.
    split; [|split; [apply dom_contract_params|done]].
    intros k Hk Hcid. unfold delta_keys in Hk.
    rewrite !elem_of_cons, elem_of_nil in Hk.
    destruct Hk as [->|[->|[->|[->|[->|[->|[]]]]]]]; done.
Qed.

Lemma delta_keys_present_witness :
  let r := update_from_event Sample.event_AB (Heap Sample.pool_p1 ∅) in
  let r' := update_from_contract Sample.contract_read Sample.pool_p1 in
  (∀ k, k ∈ delta_keys → is_Some (data r.1 !! k)) ∧
  (∀ k, k ∈ delta_keys → k ≠ "cid" → is_Some (returned r'.2 !! k)) ∧
  dom (returned r'.2) = contract_keys ∧ returned r'.2 !! "cid" = None.
Proof.
  intros r r'. split.
  - apply (proj1 delta_keys_present Sample.event_AB Sample.pool_p1 ∅ r.1).
    vm_cast_no_check (eq_refl r).
  - apply (proj2 delta_keys_present Sample.contract_read Sample.pool_p1 r'.1).
    vm_cast_no_check (eq_refl r').
Defined.

(** ** The seed *)

(** C4 as stated fails for the balance keys: a [tkn0_balance] of the seed
    is replaced by the event's [_rateN]. *)
Lemma seed_balance_overwritten :
  let seed : dict := {["tkn0_balance" := VInt 7]} in
  ∃ h' delta,
    update_from_event Sample.event_AB (Heap Sample.pool_p1 seed) = (h', inr delta) ∧
    seed !! "tkn0_balance" = Some (VInt 7) ∧
    delta !! "tkn0_balance" = Some (VInt 150).
Proof.
  intros seed.
  set (r := update_from_event Sample.event_AB (Heap Sample.pool_p1 seed)).
  exists r.1, (data r.1).
  split; [vm_cast_no_check (eq_refl r)|]. by vm_compute.
Qed.

(** C4, amended: every key-value pair of the seed whose key is neither
    [tkn0_balance] nor [tkn1_balance] is in the returned delta as it was
    given, [cid], [fee], [fee_float], [anchor] and [exchange_name] included
    (the store takes them from the seed before they are read back); the two
    balance entries of the delta are the ones the call computes, whatever
    the seed had there. *)
Theorem seed_preserved ev st seed h' delta :
  update_from_event ev (Heap st seed) = (h', inr delta) →
  (∀ k v, seed !! k = Some v →
          k ≠ "tkn0_balance" → k ≠ "tkn1_balance" → delta !! k = Some v) ∧
  ∃ b0 b1, balances_of ev st b0 b1 ∧
    delta !! "tkn0_balance" = Some b0 ∧ delta !! "tkn1_balance" = Some b1.
Proof.
  intros (b0 & b1 & Hb & -> & Hrb)%update_from_event_inr. split.
  - intros k v Hk Hk0 Hk1.
    destruct (decide (k ∈ read_back_keys)) as [Hin|Hout].
    + destruct (read_back_at _ _ _ k Hrb Hin) as [_ ->].
      by rewrite written_other, lookup_union, Hk, union_Some_l.
    + by rewrite (read_back_other _ _ _ _ Hrb), with_balances_other.
  - exists b0, b1. split; [done|].
    rewrite !(read_back_other _ _ _ _ Hrb) by (apply balance_not_read_back; auto).
    by rewrite with_balances_tkn0, with_balances_tkn1.
Qed.

Lemma seed_preserved_witness :
  let seed : dict := {["cid" := VStr "c9"]} in
  data (update_from_event Sample.event_AB (Heap Sample.pool_p1 seed)).1 !! "cid"
  = Some (VStr "c9").
Proof.
  intros seed.
  set (r := update_from_event Sample.event_AB (Heap Sample.pool_p1 seed)).
  destruct (seed_preserved Sample.event_AB Sample.pool_p1 seed r.1 (data r.1))
    as [Hkeep _]; [vm_cast_no_check (eq_refl r)|].
  by apply Hkeep.
Defined.

(** ** Failure paths *)

(** C5 as stated fails when the read-back raises: on the pool of the
    scenario as listed (no [anchor]) the matching event ends in
    [KeyError: 'anchor'] with the event's balances already in the store. *)
Lemma update_from_event_raises_after_write :
  let r := update_from_event Sample.event_AB (Heap Sample.pool_listed ∅) in
  r.2 = inl (KeyError "anchor") ∧
  Sample.pool_listed !! "tkn0_balance" = Some (VInt 100) ∧
  state r.1 !! "tkn0_balance" = Some (VInt 150) ∧
  state r.1 ≠ Sample.pool_listed.
Proof.
  intros r. split; [by vm_compute|]. split; [by vm_compute|].
  assert (state r.1 !! "tkn0_balance" = Some (VInt 150)) as H by by vm_compute.
  split; [exact H|]. intros Heq. rewrite Heq in H. vm_compute in H. discriminate H.
Qed.

(** C5, amended: a call that raises on one of the lookups made before the
    write loop ([tkn0_address], [tkn1_address] or [tkn0_balance] of the
    store, [args], [_token1], [_token2], [_rateN] or [_rateD] of the event)
    leaves the store exactly as it was.  The only other failures are a
    [KeyError] on [anchor], [cid], [fee], [fee_float] or [exchange_name],
    raised by the read-back after the write loop: then the store has
    received the seed and the balances, and still lacks that key. *)
Theorem update_from_event_failure_store ev st seed h' e :
  update_from_event ev (Heap st seed) = (h', inl e) →
  (∃ k, k ∈ early_keys ∧ e = KeyError k ∧ state h' = st) ∨
  (∃ k b0 b1, k ∈ read_back_keys ∧ e = KeyError k ∧
     balances_of ev st b0 b1 ∧
     state h' = with_balances b0 b1 seed ∪ st ∧ state h' !! k = None).
Proof.
  intros [[Hst (k & Hk & ->)]|(b0 & b1 & k & Hb & Hst & Hk & Hnone & ->)]%update_from_event_inl.
  - left. by exists k.
  - right. by exists k, b0, b1.
Qed.

Lemma update_from_event_failure_store_witness :
  let r := update_from_event (Event None) (Heap Sample.pool_p1 ∅) in
  r.2 = inl (KeyError "args") ∧ state r.1 = Sample.pool_p1.
Proof.
  intros r.
  destruct (update_from_event_failure_store (Event None) Sample.pool_p1 ∅
              r.1 (KeyError "args")) as [(k & _ & _ & H)|(k & b0 & b1 & H & Hk & _)].
  - vm_cast_no_check (eq_refl r).
  - split; [by vm_compute|exact H].
  - exfalso. injection Hk as <-. unfold read_back_keys in H.
    rewrite !elem_of_cons, elem_of_nil in H. intuition discriminate.
Defined.

(** ** The identity key *)

(** C6 as stated fails for a seed that carries an [address]: the write loop
    stores it over the pool's own. *)
Lemma seed_address_overwrites :
  let seed : dict := {["address" := VStr "0xOther"]} in
  let r := update_from_event Sample.event_AB (Heap Sample.pool_p1 seed) in
  Sample.pool_p1 !! unique_key = Some (VStr "0xPool") ∧
  state r.1 !! unique_key = Some (VStr "0xOther") ∧
  r.2 = inr (data r.1).
Proof.
  intros seed r. split; [by vm_compute|]. split; [by vm_compute|].
  vm_cast_no_check (eq_refl r.2).
Qed.

Lemma update_from_event_store ev st seed :
  let h' := (update_from_event ev (Heap st seed)).1 in
  state h' = st ∨ ∃ b0 b1, state h' = with_balances b0 b1 seed ∪ st.
Proof.
  destruct (update_from_event ev (Heap st seed)) as [h' [e|delta]] eqn:Hrun; simpl.
  - apply update_from_event_inl in Hrun as [[? _]|(b0 & b1 & _ & _ & ? & _)]; eauto.
  - apply update_from_event_inr in Hrun as (b0 & b1 & _ & -> & _). eauto.
Qed.

(** C6, amended: [update_from_contract] never changes [state["address"]],
    whatever the contract reads return and whether or not it raises;
    [update_from_event] leaves [state["address"]] as it was, whether or not
    it raises, for every event and every seed that has no [address] entry
    (or has the stored one). *)
Theorem address_stable :
  (∀ c st, (update_from_contract c st).1 !! unique_key = st !! unique_key) ∧
  (∀ ev st seed,
     seed !! unique_key = None ∨ seed !! unique_key = st !! unique_key →
     state (update_from_event ev (Heap st seed)).1 !! unique_key
     = st !! unique_key).
Proof.
  unfold unique_key. split.
  - intros c st.
    destruct (update_from_contract c st) as [st' [e|delta]] eqn:Hrun; simpl.
    + by apply update_from_contract_inl in Hrun as ->.
    + apply update_from_contract_inr in Hrun
        as (r0 & r1 & fee & ff & en & ad & an & _ & _ & _ & _ & Had & _ & -> & ->).
      rewrite Had. by apply lookup_union_Some_l.
  - intros ev st seed Hseed.
    destruct (update_from_event_store ev st seed) as [->|(b0 & b1 & ->)]; [done|].
    rewrite written_other, lookup_union by done.
    destruct Hseed as [->| ->]; [by rewrite (left_id_L None _)|].
    by destruct (st !! "address").
Qed.

Lemma address_stable_witness :
  state (update_from_event Sample.event_AB (Heap Sample.pool_p1 ∅)).1 !! unique_key
  = Some (VStr "0xPool").
Proof.
  apply (proj2 address_stable Sample.event_AB Sample.pool_p1 ∅).
  left. reflexivity.
Defined.

(** ** Contract refresh *)

(** C7: with the same contract reads, a second [update_from_contract]
    returns what the first returned (the same delta, or the same exception)
    and leaves the store as the first call left it. *)
Theorem update_from_contract_refresh c st :
  let first := update_from_contract c st in
  let second := update_from_contract c first.1 in
  second.2 = first.2 ∧ second.1 = first.1.
Proof.
  destruct (update_from_contract c st) as [st1 [e|delta]] eqn:Hrun; simpl.
  - apply update_from_contract_inl in Hrun as Hst. subst st1. by rewrite Hrun.
  - apply update_from_contract_inr in Hrun
      as (r0 & r1 & fee & ff & en & ad & an & Hr & Hfee & Hff & Hen & Had & Han & Hd & ->).
    assert (update_from_contract c (delta ∪ st) = (delta ∪ st, inr delta)) as ->; [|done].
    apply update_from_contract_inr.
    exists r0, r1, fee, ff, en, ad, an. repeat split; try done.
    + apply lookup_union_Some_l. by rewrite Hd.
    + apply lookup_union_Some_l. by rewrite Hd.
    + by rewrite (assoc_L (∪)), (idemp_L (∪) delta).
Qed.

(** C10: a call of [update_from_contract] that returns has written exactly
    the seven keys of its delta and left every other field of the store as
    it was, [tkn0_address], [tkn1_address] and [cid] among them; on a pool
    that did not have [tkn0_address] before, any [update_from_event] that
    follows raises [KeyError: 'tkn0_address'] without touching anything. *)
Theorem update_from_contract_frame c st st' delta :
  update_from_contract c st = (st', inr delta) →
  dom delta = contract_keys ∧
  (∀ k, k ∈ contract_keys → st' !! k = delta !! k) ∧
  (∀ k, k ∉ contract_keys → st' !! k = st !! k) ∧
  (∀ k, k ∈ ["tkn0_address"; "tkn1_address"; "cid"] →
        (k ∉ contract_keys) ∧ st' !! k = st !! k) ∧
  (st !! "tkn0_address" = None →
   ∀ ev seed, update_from_event ev (Heap st' seed)
              = (Heap st' seed, inl (KeyError "tkn0_address"))).
Proof.
  intros (r0 & r1 & fee & ff & en & ad & an & _ & _ & _ & _ & _ & _ & Hd & ->)%update_from_contract_inr.
  assert (dom delta = contract_keys) as Hdom
    by (rewrite Hd; apply dom_contract_params).
  assert (∀ k, k ∉ contract_keys → (delta ∪ st) !! k = st !! k) as Hframe.
  { intros k Hk. apply lookup_union_r. apply not_elem_of_dom. by rewrite Hdom. }
  assert (∀ k, k ∈ ["tkn0_address"; "tkn1_address"; "cid"] → k ∉ contract_keys)
    as Hout.
  { intros k Hk. rewrite !elem_of_cons, elem_of_nil in Hk.
    unfold contract_keys. rewrite elem_of_list_to_set, !elem_of_cons, elem_of_nil.
    destruct Hk as [->|[->|[->|[]]]]; intuition discriminate. }
  split; [done|]. split; [|split; [done|split]].
  - intros k Hk. apply lookup_union_l'. apply elem_of_dom. by rewrite Hdom.
  - intros k Hk. split; [by apply Hout|]. by apply Hframe, Hout.
  - intros Hnone ev seed. unfold update_from_event. run_unfold. simpl.
    rewrite Hframe, Hnone; [done|]. apply Hout. by in_list.
Qed.

Lemma update_from_contract_frame_witness :
  let r := update_from_contract Sample.contract_read Sample.pool_fresh in
  dom (returned r.2) = contract_keys ∧
  r.1 !! "cid" = None ∧
  (update_from_event Sample.event_AB (Heap r.1 ∅)).2
  = inl (KeyError "tkn0_address").
Proof.
  intros r.
  destruct (update_from_contract_frame Sample.contract_read Sample.pool_fresh
              r.1 (returned r.2)) as (Hdom & _ & _ & Hkeep & Hev).
  - vm_cast_no_check (eq_refl r).
  - split; [exact Hdom|]. split.
    + destruct (Hkeep "cid") as [_ ->]; [by in_list|reflexivity].
    + by rewrite (Hev eq_refl Sample.event_AB ∅).
Defined.

(** ** The event-format matcher *)

(** C9: on an event record with an [args] mapping, [event_matches_format]
    returns [True] exactly when [_rateN] is a key of [args].  It returns
    that in whatever state it is run and leaves that state as it is, and
    adding, replacing or removing any other key of [args] does not change
    what it does. *)
Theorem event_matches_format_rateN {S} (a : dict) (s : S) :
  (∃ b, event_matches_format (Event (Some a)) s = (s, inr b) ∧
        (b = true ↔ is_Some (a !! "_rateN"))) ∧
  (∀ {S'} (s' : S'),
     (event_matches_format (Event (Some a)) s').2
     = (event_matches_format (Event (Some a)) s).2) ∧
  (∀ k v, k ≠ "_rateN" →
     event_matches_format (Event (Some (<[k:=v]> a))) s
     = event_matches_format (Event (Some a)) s ∧
     event_matches_format (Event (Some (delete k a))) s
     = event_matches_format (Event (Some a)) s).
Proof.
  unfold event_matches_format, py_in. run_unfold. simpl.
  split; [|split].
  - eexists. split; [done|]. apply bool_decide_eq_true.
  - done.
  - intros k v Hk. by rewrite lookup_insert_ne, lookup_delete_ne.
Qed.

Lemma event_matches_format_rateN_witness :
  event_matches_format (Event (Some (<["_token1":=VStr "0xC"]> Sample.args_AB)))
    Sample.pool_p1
  = event_matches_format Sample.event_AB Sample.pool_p1.
Proof.
  destruct (event_matches_format_rateN Sample.args_AB Sample.pool_p1)
    as (_ & _ & Hother).
  destruct (Hother "_token1" (VStr "0xC")) as [Hins _]; [discriminate|].
  exact Hins.
Defined.
(** ** Rounding in binary64 *)

(** The mantissa [m] of a positive number has [Zdigits2 m] binary digits. *)
Lemma digits2_pos_bounds p :
  2 ^ (Zpos (digits2_pos p) - 1) <= Zpos p < 2 ^ Zpos (digits2_pos p).
Proof.
  induction p as [p IH|p IH|]; simpl digits2_pos.
  - rewrite Pos2Z.inj_succ, Z.pow_succ_r by lia.
    replace (Z.succ (Zpos (digits2_pos p)) - 1) with (Z.succ (Zpos (digits2_pos p) - 1)) by lia.
    rewrite Z.pow_succ_r by lia. lia.
  - rewrite Pos2Z.inj_succ, Z.pow_succ_r by lia.
    replace (Z.succ (Zpos (digits2_pos p)) - 1) with (Z.succ (Zpos (digits2_pos p) - 1)) by lia.
    rewrite Z.pow_succ_r by lia. lia.
  - simpl. lia.
Qed.

Lemma Zdigits2_bounds m :
  0 < m → 2 ^ (Zdigits2 m - 1) <= m < 2 ^ Zdigits2 m.
Proof. destruct m as [|p|p]; try lia. intros _. apply digits2_pos_bounds. Qed.

Lemma Zdigits2_unique m d :
  2 ^ (d - 1) <= m < 2 ^ d → 0 < m → Zdigits2 m = d.
Proof.
  intros [Hlo Hhi] Hm. pose proof (Zdigits2_bounds m Hm) as [Hlo' Hhi'].
  assert (0 < Zdigits2 m) by (destruct m; simpl; lia).
  assert (0 < d).
  { destruct (Z_lt_le_dec 0 d); [done|]. 
    assert (2 ^ d <= 2 ^ 0) by (destruct d; simpl; try lia; rewrite Z.pow_neg_r; lia). simpl in *. lia. }
  assert (d - 1 < Zdigits2 m) by (apply (Z.pow_lt_mono_r_iff 2); lia).
  assert (Zdigits2 m - 1 < d) by (apply (Z.pow_lt_mono_r_iff 2); lia).
  lia.
Qed.

Lemma shr_1_m mrs : 0 <= shr_m mrs → shr_m (shr_1 mrs) = shr_m mrs / 2.
Proof.
  destruct mrs as [m r s]. simpl. intros Hm.
  destruct m as [|[p|p|]|p]; simpl; try done; try lia.
  - rewrite Pos2Z.inj_xI. apply Z.div_unique with 1; lia.
  - rewrite Pos2Z.inj_xO. apply Z.div_unique with 0; lia.
Qed.

Lemma iter_shr_m p : ∀ mrs,
  0 <= shr_m mrs →
  shr_m (SpecFloat.iter_pos shr_1 p mrs) = shr_m mrs / 2 ^ Zpos p.
Proof.
  assert (∀ a b, 0 <= a → 0 <= a / 2 ^ Zpos b) as Hpos
    by (intros; apply Z.div_pos; [|apply Z.pow_pos_nonneg]; lia).
  assert (∀ a, 0 <= a → 0 <= a / 2) as Hhalf by (intros; apply Z.div_pos; lia).
  induction p as [p IH|p IH|]; intros mrs Hm; simpl SpecFloat.iter_pos.
  - assert (0 <= shr_m (shr_1 mrs)) as H1 by (rewrite shr_1_m; auto).
    assert (0 <= shr_m (SpecFloat.iter_pos shr_1 p (shr_1 mrs))) as H2
      by (rewrite IH; auto).
    rewrite (IH _ H2), (IH _ H1), shr_1_m by done.
    rewrite !Z.div_div by (try apply Z.pow_pos_nonneg; lia).
    f_equal. replace (Z.pos p~1) with (1 + Z.pos p + Z.pos p) by lia.
    rewrite !Z.pow_add_r by lia. lia.
  - assert (0 <= shr_m (SpecFloat.iter_pos shr_1 p mrs)) as H2
      by (rewrite IH; auto).
    rewrite (IH _ H2), (IH _ Hm).
    rewrite !Z.div_div by (try apply Z.pow_pos_nonneg; lia).
    f_equal. replace (Z.pos p~0) with (Z.pos p + Z.pos p) by lia.
    rewrite !Z.pow_add_r by lia. lia.
  - by rewrite shr_1_m.
Qed.

Lemma round_nearest_even_cases m l :
  round_nearest_even m l = m ∨ round_nearest_even m l = m + 1.
Proof. destruct l as [|[]]; simpl; auto. destruct (Z.even m); auto. Qed.

Lemma shr_m_of_loc m l : shr_m (shr_record_of_loc m l) = m.
Proof. by destruct l as [|[]]. Qed.

Lemma shr_shift mrs e k :
  0 <= shr_m mrs → 0 <= k →
  shr_m (shr mrs e k).1 = shr_m mrs / 2 ^ k ∧ (shr mrs e k).2 = e + k.
Proof.
  intros Hm Hk. destruct k as [|p|p]; simpl; try lia.
  - by rewrite Z.div_1_r, Z.add_0_r.
  - split; [|done]. by apply iter_shr_m.
Qed.

Lemma binary_round_aux_core s m e l :
  0 < m → 53 <= Zdigits2 m → -1074 <= e + Zdigits2 m - 53 →
  let k := Zdigits2 m - 53 in
  ∃ (m' : positive) (j : Z),
    binary_round_aux 53 1024 s m e l
    = (if e + k + j <=? 971 then S754_finite s m' (e + k + j)
       else S754_infinity s) ∧
    0 <= j <= 1 ∧ 2 ^ 52 <= Zpos m' < 2 ^ 53 ∧
    m / 2 ^ k <= Zpos m' * 2 ^ j <= m / 2 ^ k + 1.
Proof.
  intros Hm Hd He k.
  unfold binary_round_aux, shr_fexp, fexp, emin.
  replace (Z.max (Zdigits2 m + e - 53) (3 - 1024 - 53) - e) with k by lia.
  destruct (shr_shift (shr_record_of_loc m l) e k) as [Hms He'];
    [rewrite shr_m_of_loc; lia|lia|].
  rewrite shr_m_of_loc in Hms.
  destruct (shr (shr_record_of_loc m l) e k) as [mrs' e'].
  simpl in Hms, He'. subst e'.
  set (ms := m / 2 ^ k) in *.
  assert (2 ^ 52 <= ms < 2 ^ 53) as Hrange.
  { pose proof (Zdigits2_bounds m Hm) as [Hlo Hhi].
    assert (0 < 2 ^ k) by (apply Z.pow_pos_nonneg; lia).
    assert (2 ^ (Zdigits2 m - 1) = 2 ^ 52 * 2 ^ k) as Elo
      by (rewrite <- Z.pow_add_r by lia; f_equal; lia).
    assert (2 ^ Zdigits2 m = 2 ^ 53 * 2 ^ k) as Ehi
      by (rewrite <- Z.pow_add_r by lia; f_equal; lia).
    rewrite Elo in Hlo. rewrite Ehi in Hhi.
    split.
    - apply Z.div_le_lower_bound; lia.
    - apply Z.div_lt_upper_bound; lia. }
  set (mr := round_nearest_even (shr_m mrs') (loc_of_shr_record mrs')).
  assert (mr = ms ∨ mr = ms + 1) as Hmr
    by (unfold mr; rewrite Hms; apply round_nearest_even_cases).
  destruct (Z_lt_le_dec mr (2 ^ 53)) as [Hlt|Hge].
  - assert (Zdigits2 mr = 53) as Hdr by (apply Zdigits2_unique; lia).
    rewrite Hdr.
    replace (Z.max (53 + (e + k) - 53) (3 - 1024 - 53) - (e + k)) with 0 by lia.
    simpl shr. cbv iota beta. simpl shr_m.
    destruct mr as [|m'|m'] eqn:Hmr'; try lia.
    exists m', 0. rewrite Z.add_0_r, Z.mul_1_r. repeat split; try lia.
  - assert (mr = 2 ^ 53) as Hmr' by lia.
    rewrite Hmr'.
    exists (4503599627370496)%positive, 1.
    replace (Z.max (Zdigits2 (2 ^ 53) + (e + k) - 53) (3 - 1024 - 53) - (e + k))
      with 1 by (change (Zdigits2 (2 ^ 53)) with 54; lia).
    simpl shr. cbv iota beta. simpl shr_m.
    repeat split; try lia.
Qed.

Lemma IZR_pow2 k : 0 <= k → IZR (2 ^ k) = powerRZ 2 k.
Proof.
  destruct k as [|p|p]; try lia; intros _; [done|].
  apply Zpower_pos_powerRZ.
Qed.

Lemma powerRZ_2_pos e : (0 < powerRZ 2 e)%R.
Proof. apply powerRZ_lt. lra. Qed.

Lemma F2R_shift m e k : 0 <= k → Float.F2R (m * 2 ^ k) e = Float.F2R m (e + k).
Proof.
  intros Hk. unfold Float.F2R.
  rewrite mult_IZR, IZR_pow2, powerRZ_add by (lra || lia). lra.
Qed.

Lemma F2R_le m1 m2 e : m1 <= m2 → (Float.F2R m1 e <= Float.F2R m2 e)%R.
Proof.
  intros H. unfold Float.F2R. apply Rmult_le_compat_r.
  - apply Rlt_le, powerRZ_2_pos.
  - by apply IZR_le.
Qed.

Lemma F2R_plus_1 m e : Float.F2R (m + 1) e = (Float.F2R m e + powerRZ 2 e)%R.
Proof. unfold Float.F2R. rewrite plus_IZR. lra. Qed.

Lemma binary_round_aux_error s m e l (r : R) :
  0 < m → 53 <= Zdigits2 m → -1074 <= e + Zdigits2 m - 53 →
  (Float.F2R m e <= r <= Float.F2R (m + 1) e)%R →
  ∃ (m' : positive) (e' : Z),
    binary_round_aux 53 1024 s m e l
    = (if e' <=? 971 then S754_finite s m' e' else S754_infinity s) ∧
    2 ^ 52 <= Zpos m' < 2 ^ 53 ∧
    e + Zdigits2 m - 53 <= e' <= e + Zdigits2 m - 52 ∧
    (Rabs (Float.F2R (Zpos m') e' - r) * IZR (2 ^ 52) <= r)%R.
Proof.
  intros Hm Hd He Hr.
  destruct (binary_round_aux_core s m e l Hm Hd He) as (m' & j & Haux & Hj & Hm' & Hms).
  set (k := Zdigits2 m - 53) in *.
  exists m', (e + k + j). split; [done|]. split; [done|]. split; [lia|].
  set (ms := m / 2 ^ k) in *.
  assert (0 < 2 ^ k) as Hk by (apply Z.pow_pos_nonneg; lia).
  assert (ms * 2 ^ k <= m < (ms + 1) * 2 ^ k) as [Hlo Hhi].
  { unfold ms. pose proof (Z.mul_div_le m (2 ^ k) Hk).
    pose proof (Z.mul_succ_div_gt m (2 ^ k) Hk). lia. }
  assert (2 ^ 52 <= ms) as Hms52.
  { destruct Hj as [Hj0 Hj1]. assert (j = 0 ∨ j = 1) as [->| ->] by lia.
    - apply Z.div_le_lower_bound; [lia|].
      pose proof (Zdigits2_bounds m Hm) as [Hb _].
      replace (Zdigits2 m - 1) with (52 + k) in Hb by lia.
      rewrite Z.pow_add_r in Hb by lia. lia.
    - apply Z.div_le_lower_bound; [lia|].
      pose proof (Zdigits2_bounds m Hm) as [Hb _].
      replace (Zdigits2 m - 1) with (52 + k) in Hb by lia.
      rewrite Z.pow_add_r in Hb by lia. lia. }
  set (P := powerRZ 2 (e + k)).
  assert (0 < P)%R as HP by apply powerRZ_2_pos.
  assert (Float.F2R (Zpos m') (e + k + j) = IZR (Zpos m' * 2 ^ j) * P)%R as ->.
  { rewrite <- F2R_shift by lia. done. }
  assert (IZR ms * P <= r <= IZR ms * P + P)%R as [Hr1 Hr2].
  { destruct Hr as [Hr1 Hr2]. split.
    - eapply Rle_trans; [|exact Hr1].
      change (IZR ms * P)%R with (Float.F2R ms (e + k)).
      rewrite <- F2R_shift by lia. by apply F2R_le.
    - eapply Rle_trans; [exact Hr2|].
      replace (IZR ms * P + P)%R with (Float.F2R (ms + 1) (e + k))
        by (unfold Float.F2R, P; rewrite plus_IZR; lra).
      rewrite <- F2R_shift by lia. apply F2R_le. lia. }
  assert (IZR ms * P <= IZR (Zpos m' * 2 ^ j) * P <= IZR ms * P + P)%R as [Hv1 Hv2].
  { destruct Hms as [Hms1 Hms2]. apply IZR_le in Hms1, Hms2.
    rewrite plus_IZR in Hms2. split; nra. }
  assert (IZR (2 ^ 52) * P <= IZR ms * P)%R as Hbig.
  { apply IZR_le in Hms52. nra. }
  assert (0 < IZR (2 ^ 52))%R as H52 by (apply IZR_lt; lia).
  assert (Rabs (IZR (Zpos m' * 2 ^ j) * P - r) <= P)%R as Habs
    by (apply Rabs_le; lra).
  apply Rle_trans with (P * IZR (2 ^ 52))%R; [|lra].
  apply Rmult_le_compat_r; lra.
Qed.

Lemma pos_iter_xO p d : Zpos (Pos.iter xO p d) = Zpos p * 2 ^ Zpos d.
Proof.
  induction d as [|d IH] using Pos.peano_ind.
  - simpl. lia.
  - rewrite Pos.iter_succ, Pos2Z.inj_xO, IH, Pos2Z.inj_succ, Z.pow_succ_r by lia.
    lia.
Qed.

Lemma binary_round_int_error s p :
  ∃ (m' : positive) (e' : Z),
    binary_round 53 1024 s p 0
    = (if e' <=? 971 then S754_finite s m' e' else S754_infinity s) ∧
    2 ^ 52 <= Zpos m' < 2 ^ 53 ∧ -52 <= e' ∧
    (Rabs (Float.F2R (Zpos m') e' - IZR (Zpos p)) * IZR (2 ^ 52) <= IZR (Zpos p))%R.
Proof.
  unfold binary_round, shl_align, fexp, emin.
  pose proof (digits2_pos_bounds p) as [Hlo Hhi].
  set (d := Zpos (digits2_pos p)) in *.
  assert (0 < d) as Hd by done.
  assert (Zdigits2 (Zpos p) = d) as Hdp by done.
  replace (Z.max (d + 0 - 53) (3 - 1024 - 53) - 0) with (d - 53) by lia.
  replace (Z.max (d + 0 - 53) (3 - 1024 - 53)) with (d - 53) by lia.
  destruct (d - 53) as [|q|q] eqn:Hq.
  - (* 53 digits already *)
    destruct (binary_round_aux_error s (Zpos p) 0 loc_Exact (IZR (Zpos p)))
      as (m' & e' & Haux & Hm' & He' & Herr); rewrite ?Hdp; try lia.
    { rewrite F2R_plus_1. unfold Float.F2R. simpl powerRZ. lra. }
    exists m', e'. split; [exact Haux|]. split; [done|]. split; [lia|done].
  - (* more than 53 digits *)
    destruct (binary_round_aux_error s (Zpos p) 0 loc_Exact (IZR (Zpos p)))
      as (m' & e' & Haux & Hm' & He' & Herr); rewrite ?Hdp; try lia.
    { rewrite F2R_plus_1. unfold Float.F2R. simpl powerRZ. lra. }
    exists m', e'. split; [exact Haux|]. split; [done|]. split; [lia|done].
  - (* fewer: the mantissa is first shifted left to 53 digits *)
    assert (Zpos (Pos.iter xO p q) = Zpos p * 2 ^ (53 - d)) as Hsh
      by (rewrite pos_iter_xO; f_equal; f_equal; lia).
    assert (Zdigits2 (Zpos (Pos.iter xO p q)) = 53) as Hdig.
    { apply Zdigits2_unique; [|done]. rewrite Hsh.
      assert (0 < 2 ^ (53 - d)) by (apply Z.pow_pos_nonneg; lia).
      assert (2 ^ (53 - 1) = 2 ^ (d - 1) * 2 ^ (53 - d)) as ->
        by (rewrite <- Z.pow_add_r by lia; f_equal; lia).
      assert (2 ^ 53 = 2 ^ d * 2 ^ (53 - d)) as ->
        by (rewrite <- Z.pow_add_r by lia; f_equal; lia).
      split; [apply Z.mul_le_mono_nonneg_r|apply Z.mul_lt_mono_pos_r]; lia. }
    destruct (binary_round_aux_error s (Zpos (Pos.iter xO p q)) (Z.neg q)
                loc_Exact (IZR (Zpos p)))
      as (m' & e' & Haux & Hm' & He' & Herr); rewrite ?Hdig; try lia.
    { assert (Float.F2R (Zpos (Pos.iter xO p q)) (Z.neg q) = IZR (Zpos p)) as Hexact.
      { rewrite Hsh, F2R_shift by lia. unfold Float.F2R.
        replace (Z.neg q + (53 - d)) with 0 by lia. simpl. lra. }
      rewrite F2R_plus_1, Hexact.
      pose proof (powerRZ_2_pos (Z.neg q)). lra. }
    exists m', e'. split; [exact Haux|]. split; [done|]. split; [lia|done].
Qed.

Lemma div_1e6_error s (m : positive) e :
  2 ^ 52 <= Zpos m < 2 ^ 53 → -52 <= e <= 971 →
  ∃ (m' : positive) (e' : Z),
    Float.div (S754_finite s m e) Float.f1e6 = S754_finite s m' e' ∧
    (Rabs (Float.F2R (Zpos m') e' - Float.F2R (Zpos m) e / 1000000) * IZR (2 ^ 52)
     <= Float.F2R (Zpos m) e / 1000000)%R.
Proof.
  intros Hm He.
  assert (Zdigits2 (Zpos m) = 53) as Hdm by (apply Zdigits2_unique; lia).
  unfold Float.div, Float.f1e6, Float.prec, Float.emax, SFdiv, SFdiv_core_binary.
  cbv zeta. rewrite Hdm, xorb_false_r.
  change (Zdigits2 (Zpos 8589934592000000)) with 53.
  unfold fexp, emin.
  replace (Z.min (Z.max (53 + e - (53 + -33) - 53) (3 - 1024 - 53)) (e - -33))
    with (e - 20) by lia.
  replace (e - -33 - (e - 20)) with 53 by lia.
  rewrite Z.shiftl_mul_pow2 by lia.
  set (my := 8589934592000000) in *.
  destruct (Z.div_eucl (Zpos m * 2 ^ 53) my) as [q r] eqn:Hdiv.
  assert (q = Zpos m * 2 ^ 53 / my) as Hq by (unfold Z.div; by rewrite Hdiv).
  assert (0 < my) as Hmy by done.
  assert (q * my <= Zpos m * 2 ^ 53 < (q + 1) * my) as [Hq1 Hq2].
  { rewrite Hq. pose proof (Z.mul_div_le (Zpos m * 2 ^ 53) my Hmy).
    pose proof (Z.mul_succ_div_gt (Zpos m * 2 ^ 53) my Hmy). lia. }
  assert (2 ^ 52 <= q < 2 ^ 54) as [Hqlo Hqhi].
  { rewrite Hq. split.
    - apply Z.div_le_lower_bound; [done|]. unfold my. lia.
    - apply Z.div_lt_upper_bound; [done|]. unfold my. lia. }
  assert (0 < q) as Hqpos by lia.
  pose proof (Zdigits2_bounds q Hqpos) as [Hdlo Hdhi].
  assert (53 <= Zdigits2 q <= 54) as Hdq.
  { split.
    - assert (52 < Zdigits2 q); [|lia].
      apply (Z.pow_lt_mono_r_iff 2); [lia|destruct q; simpl; lia|lia].
    - assert (Zdigits2 q - 1 < 54); [|lia].
      apply (Z.pow_lt_mono_r_iff 2); lia. }
  destruct (binary_round_aux_error s q (e - 20) (new_location my r)
              (Float.F2R (Zpos m) e / 1000000))
    as (m' & e' & Haux & Hm' & He' & Herr); try lia.
  { assert (powerRZ 2 (e - 20) = powerRZ 2 e / 1048576)%R as Hpow.
    { unfold Z.sub. rewrite powerRZ_add by lra. simpl. lra. }
    pose proof (powerRZ_2_pos e) as HP.
    rewrite F2R_plus_1. unfold Float.F2R. rewrite Hpow.
    apply IZR_le in Hq1. apply IZR_lt in Hq2.
    rewrite !mult_IZR in Hq1. rewrite !mult_IZR, plus_IZR in Hq2.
    change (IZR (2 ^ 53)) with 9007199254740992%R in Hq1, Hq2.
    change (IZR my) with 8589934592000000%R in Hq1, Hq2.
    split.
    - apply Rle_trans with (IZR (Zpos m) / 1000000 * powerRZ 2 e)%R; [|lra].
      replace (IZR q * (powerRZ 2 e / 1048576))%R
        with (IZR q / 1048576 * powerRZ 2 e)%R by lra.
      apply Rmult_le_compat_r; lra.
    - apply Rle_trans with (IZR (Zpos m) / 1000000 * powerRZ 2 e)%R; [lra|].
      replace (IZR q * (powerRZ 2 e / 1048576) + powerRZ 2 e / 1048576)%R
        with ((IZR q + 1) / 1048576 * powerRZ 2 e)%R by lra.
      apply Rmult_le_compat_r; lra. }
  exists m', e'. split; [|done].
  rewrite Haux. assert ((e' <=? 971) = true) as -> by (apply Z.leb_le; lia). done.
Qed.

Lemma Rabs_scaled_inv a c b :
  (0 < c)%R → (Rabs a * c <= b)%R → (- b <= a * c <= b)%R.
Proof.
  intros Hc H. unfold Rabs in H. destruct (Rcase_abs a); split; nra.
Qed.

Lemma Rabs_scaled a c b :
  (0 < c)%R → (- b <= a * c <= b)%R → (Rabs a * c <= b)%R.
Proof.
  intros Hc H. unfold Rabs. destruct (Rcase_abs a); nra.
Qed.

Lemma F2R_opp m e : Float.F2R (- m) e = (- Float.F2R m e)%R.
Proof. unfold Float.F2R. rewrite opp_IZR. lra. Qed.

(** [float(n) / 1e6] for [n > 0], with either sign put on it. *)
Lemma pos_div_1e6_error s p :
  (∃ s', binary_round 53 1024 s p 0 = S754_infinity s') ∨
  (∃ (m : positive) (e : Z),
     Float.div (binary_round 53 1024 s p 0) Float.f1e6 = S754_finite s m e ∧
     (Rabs (Float.F2R (Zpos m) e - IZR (Zpos p) / 1000000) * IZR (2 ^ 50)
      <= IZR (Zpos p) / 1000000)%R).
Proof.
  destruct (binary_round_int_error s p) as (m' & e' & Hx & Hm' & He' & Hxerr).
  destruct (e' <=? 971) eqn:Hfin; [|left; eauto].
  apply Z.leb_le in Hfin. right.
  destruct (div_1e6_error s m' e' Hm') as (m & e & Hq & Hqerr); [lia|].
  exists m, e. split; [by rewrite Hx|].
  change (IZR (2 ^ 52)) with 4503599627370496%R in *.
  change (IZR (2 ^ 50)) with 1125899906842624%R.
  apply Rabs_scaled_inv in Hxerr; [|lra].
  apply Rabs_scaled_inv in Hqerr; [|lra].
  assert (0 < IZR (Zpos p))%R by (apply IZR_lt; lia).
  apply Rabs_scaled; lra.
Qed.

Lemma int_div_1e6_error n :
  (∃ s, Float.of_int n = S754_infinity s) ∨
  (Float.is_finite (Float.div (Float.of_int n) Float.f1e6) = true ∧
   (Rabs (Float.to_R (Float.div (Float.of_int n) Float.f1e6) - IZR n / 1000000)
      * IZR (2 ^ 50)
    <= Rabs (IZR n / 1000000))%R).
Proof.
  unfold Float.of_int, binary_normalize, Float.prec, Float.emax.
  destruct n as [|p|p].
  - right. split; [done|]. simpl.
    replace (0 - 0 / 1000000)%R with 0%R by lra.
    replace (0 / 1000000)%R with 0%R by lra. rewrite Rabs_R0. lra.
  - destruct (pos_div_1e6_error false p) as [?|(m & e & -> & Herr)]; [by left|].
    right. split; [done|]. simpl Float.to_R.
    assert (0 < IZR (Zpos p))%R by (apply IZR_lt; lia).
    rewrite (Rabs_pos_eq (IZR (Zpos p) / 1000000)) by lra. done.
  - destruct (pos_div_1e6_error true p) as [?|(m & e & -> & Herr)]; [by left|].
    right. split; [done|]. simpl Float.to_R. rewrite F2R_opp.
    assert (0 < IZR (Zpos p))%R by (apply IZR_lt; lia).
    change (Z.neg p) with (- Zpos p). rewrite opp_IZR.
    replace (- Float.F2R (Zpos m) e - - IZR (Zpos p) / 1000000)%R
      with (- (Float.F2R (Zpos m) e - IZR (Zpos p) / 1000000))%R by lra.
    rewrite Rabs_Ropp.
    replace (- IZR (Zpos p) / 1000000)%R with (- (IZR (Zpos p) / 1000000))%R by lra.
    rewrite Rabs_Ropp, (Rabs_pos_eq (IZR (Zpos p) / 1000000)) by lra. done.
Qed.

Lemma f1e6_value : Float.to_R Float.f1e6 = 1000000%R.
Proof. unfold Float.to_R, Float.f1e6, Float.F2R. simpl. lra. Qed.

Lemma py_truediv_int n y v :
  py_truediv (VInt n) y = inr v →
  v = VFloat (Float.div (Float.of_int n) y) ∧
  ∀ s, Float.of_int n ≠ S754_infinity s.
Proof.
  unfold py_truediv. destruct (Float.of_int n), (Float.is_zero y); naive_solver.
Qed.

(** ** The normalized fee *)

(** C8: in every delta returned by [update_from_contract], [fee] is the
    conversion fee the contract read returned and [fee_float] is the float
    [fee / 1e6]; when that fee is an integer [n], [fee_float] is a finite
    float whose value is within the relative tolerance [2^-50] of
    [n / 1000000]. *)
Theorem fee_float_normalized c st st' delta :
  update_from_contract c st = (st', inr delta) →
  ∃ fee ff,
    conversionFee c = inr fee ∧
    delta !! "fee" = Some fee ∧
    delta !! "fee_float" = Some (VFloat ff) ∧
    py_truediv fee Float.f1e6 = inr (VFloat ff) ∧
    ∀ n, fee = VInt n →
      Float.is_finite ff = true ∧
      (Rabs (Float.to_R ff - IZR n / 1000000)
       <= Rabs (IZR n / 1000000) * Float.rel_tol)%R.
Proof.
  intros (r0 & r1 & fee & v & en & ad & an & _ & Hfee & Hdiv & _ & _ & _ & -> & _)%update_from_contract_inr.
  assert (∃ ff, v = VFloat ff) as [ff ->].
  { unfold py_truediv in Hdiv.
    destruct fee as [|n|f|]; try done.
    - destruct (Float.of_int n), (Float.is_zero Float.f1e6); naive_solver.
    - destruct (Float.is_zero Float.f1e6); naive_solver. }
  exists fee, ff. repeat split; try done.
  - subst fee. apply py_truediv_int in Hdiv as [[= ->] Hfin].
    destruct (int_div_1e6_error n) as [[s Hinf]|[H _]]; [by destruct (Hfin s)|done].
  - subst fee. apply py_truediv_int in Hdiv as [[= ->] Hfin].
    destruct (int_div_1e6_error n) as [[s Hinf]|[_ H]]; [by destruct (Hfin s)|].
    unfold Float.rel_tol.
    change (IZR (2 ^ 50)) with 1125899906842624%R in *. lra.
Qed.

Lemma fee_float_normalized_witness :
  let r := update_from_contract Sample.contract_read Sample.pool_p1 in
  ∃ fee ff,
    conversionFee Sample.contract_read = inr fee ∧
    returned r.2 !! "fee" = Some fee ∧
    returned r.2 !! "fee_float" = Some (VFloat ff) ∧
    py_truediv fee Float.f1e6 = inr (VFloat ff) ∧
    ∀ n, fee = VInt n →
      Float.is_finite ff = true ∧
      (Rabs (Float.to_R ff - IZR n / 1000000)
       <= Rabs (IZR n / 1000000) * Float.rel_tol)%R.
Proof.
  intros r.
  apply (fee_float_normalized Sample.contract_read Sample.pool_p1 r.1).
  vm_cast_no_check (eq_refl r).
Defined.

(** * Further properties of the two update paths *)

(** ** Replaying an event *)

Lemma update_from_event_tail ev st seed b0 b1 :
  balances_of ev st b0 b1 →
  update_from_event ev (Heap st seed)
  = read_back_run (Heap (with_balances b0 b1 seed ∪ st) (with_balances b0 b1 seed)).
Proof.
  intros Hb. unfold update_from_event, read_back_run, with_balances.
  run_unfold. simpl.
  destruct Hb as [a tkn0 tkn1 t1 t2 rn rd H0 H1 Ha Ht1 He1 Ht2 He2 Hn Hd
                 |a tkn0 tkn1 t1 b0 H0 H1 Ha Ht1 Hne Hb].
  - rewrite H0, H1, Ha. simpl. rewrite Ht1, He1, Ht2. simpl.
    rewrite He2, Hn, Hd. simpl. by rewrite for_items_on_state.
  - rewrite H0, H1, Ha. simpl. rewrite Ht1.
    destruct Hne as [->|(t2 & Ht2 & He2)]; simpl.
    + rewrite Hb. simpl. by rewrite for_items_on_state.
    + rewrite Ht2. destruct (py_eq t1 tkn0); simpl; rewrite ?He2; simpl.
      all: rewrite Hb; simpl; by rewrite for_items_on_state.
Qed.

Lemma read_back_run_state h : state (read_back_run h).1 = state h.
Proof.
  unfold read_back_run. run_unfold. destruct h as [st d]. simpl.
  repeat (match goal with
          | |- context [match ?m !! ?k with _ => _ end] => destruct (m !! k)
          end; simpl); done.
Qed.

(** Either a lookup before the write loop raised and the store is as it
    was, or the branch on the token pair went through. *)
Lemma update_from_event_outcome ev st seed :
  state (update_from_event ev (Heap st seed)).1 = st ∨
  ∃ b0 b1, balances_of ev st b0 b1.
Proof.
  destruct (update_from_event ev (Heap st seed)) as [h' [e|delta]] eqn:Hrun.
  - apply update_from_event_inl in Hrun as [[? _]|(b0 & b1 & _ & ? & _)]; eauto.
  - apply update_from_event_inr in Hrun as (b0 & b1 & ? & _). eauto.
Qed.

Lemma balances_of_written ev st seed b0 b1 :
  seed !! "tkn0_address" = None → seed !! "tkn1_address" = None →
  balances_of ev st b0 b1 →
  balances_of ev (with_balances b0 b1 seed ∪ st) b0 b1.
Proof.
  intros Hs0 Hs1 Hb.
  assert (∀ k v, k ≠ "tkn0_balance" → k ≠ "tkn1_balance" → seed !! k = None →
                 st !! k = Some v → (with_balances b0 b1 seed ∪ st) !! k = Some v)
    as Hkeep.
  { intros k v ? ? Hk Hv. by rewrite written_other, lookup_union, Hk, Hv. }
  destruct Hb as [a tkn0 tkn1 t1 t2 rn rd H0 H1 Ha Ht1 He1 Ht2 He2 Hn Hd
                 |a tkn0 tkn1 t1 b0 H0 H1 Ha Ht1 Hne Hb].
  - eapply balances_matched; eauto.
  - eapply balances_unmatched; eauto. apply written_tkn0.
Qed.

(** X1: replaying an event is idempotent.  When the seed carries no token
    address, a second [update_from_event] with the same event and the same
    seed on the store the first one left does exactly what the first did:
    the same store, the same [data], the same delta or the same exception. *)
Theorem update_from_event_replay ev st seed :
  seed !! "tkn0_address" = None → seed !! "tkn1_address" = None →
  let first := update_from_event ev (Heap st seed) in
  update_from_event ev (Heap (state first.1) seed) = first.
Proof.
  intros Hs0 Hs1 first. unfold first.
  destruct (update_from_event_outcome ev st seed) as [Heq|(b0 & b1 & Hb)].
  - by rewrite Heq.
  - rewrite (update_from_event_tail _ _ _ _ _ Hb), read_back_run_state. simpl.
    rewrite (update_from_event_tail _ _ _ b0 b1) by by apply balances_of_written.
    by rewrite (assoc_L (∪)), (idemp_L (∪)).
Qed.

Lemma update_from_event_replay_witness :
  let first := update_from_event Sample.event_AB (Heap Sample.pool_p1 ∅) in
  update_from_event Sample.event_AB (Heap (state first.1) ∅) = first.
Proof.
  exact (update_from_event_replay Sample.event_AB Sample.pool_p1 ∅ eq_refl eq_refl).
Defined.

(** ** One contract read after another *)

(** X2: a contract read that returns leaves no trace of an earlier one.
    Whenever [update_from_contract] with the reads [c2] returns on a store,
    running it after an [update_from_contract] with any other reads [c1]
    (returning or raising) gives the same delta and the same store as
    running it alone. *)
Theorem update_from_contract_overrides c1 c2 st p2 :
  (update_from_contract c2 st).2 = inr p2 →
  update_from_contract c2 (update_from_contract c1 st).1
  = update_from_contract c2 st.
Proof.
  intros Hrun2.
  destruct (update_from_contract c1 st) as [st1 [e|p1]] eqn:Hrun1; simpl.
  - by apply update_from_contract_inl in Hrun1 as ->.
  - apply update_from_contract_inr in Hrun1
      as (r0 & r1 & fee & ff & en & ad & an & _ & _ & _ & Hen & Had & _ & Hp1 & ->).
    assert (dom p1 = contract_keys) as Hdom1 by (rewrite Hp1; apply dom_contract_params).
    assert ((p1 ∪ st) !! "exchange_name" = st !! "exchange_name") as Hen'.
    { rewrite Hen. apply lookup_union_Some_l. by rewrite Hp1. }
    assert ((p1 ∪ st) !! "address" = st !! "address") as Had'.
    { rewrite Had. apply lookup_union_Some_l. by rewrite Hp1. }
    destruct (update_from_contract c2 st) as [st2 r2] eqn:Hrun2'. simpl in Hrun2.
    subst r2.
    apply update_from_contract_inr in Hrun2'
      as (r0' & r1' & fee' & ff' & en' & ad' & an' & Hr & Hfee & Hff & Hen2 & Had2 & Han & Hp2 & ->).
    assert (dom p2 = contract_keys) as Hdom2 by (rewrite Hp2; apply dom_contract_params).
    assert (p2 ∪ (p1 ∪ st) = p2 ∪ st) as <-.
    { apply map_eq. intros k. rewrite !lookup_union.
      destruct (p2 !! k) as [v|] eqn:Hk; [by destruct (p1 !! k), (st !! k)|].
      assert (p1 !! k = None) as ->; [|by rewrite !(left_id_L None _)].
      apply not_elem_of_dom. rewrite Hdom1, <- Hdom2. by apply not_elem_of_dom. }
    apply update_from_contract_inr.
    exists r0', r1', fee', ff', en', ad', an'. by rewrite Hen', Had'.
Qed.

Lemma update_from_contract_overrides_witness :
  update_from_contract Edge.contract_other
    (update_from_contract Sample.contract_read Sample.pool_p1).1
  = update_from_contract Edge.contract_other Sample.pool_p1.
Proof.
  set (r := update_from_contract Edge.contract_other Sample.pool_p1).
  apply (update_from_contract_overrides Sample.contract_read Edge.contract_other
           Sample.pool_p1 (returned r.2)).
  vm_cast_no_check (eq_refl r.2).
Defined.



(** ** The range of [fee / 1e6] *)


Lemma of_int_signed n :
  n ≠ 0 → Float.of_int n = binary_round 53 1024 (n <? 0) (Z.to_pos (Z.abs n)) 0.
Proof. by destruct n. Qed.

Lemma truediv_int_sign n ff :
  py_truediv (VInt n) Float.f1e6 = inr (VFloat ff) →
  (n = 0 → ff = S754_zero false) ∧
  (n ≠ 0 → ∃ m e, ff = S754_finite (n <? 0) m e).
Proof.
  intros [[= ->] Hfin]%py_truediv_int. split.
  - by intros ->.
  - intros Hn. rewrite of_int_signed in * by done.
    destruct (pos_div_1e6_error (n <? 0) (Z.to_pos (Z.abs n)))
      as [[s Hinf]|(m & e & Hdiv & _)]; [by destruct (Hfin s)|eauto].
Qed.


(** X13: the normalized fee has the sign of the fee.  In a delta returned
    by [update_from_contract] for an integer fee [n], [fee_float] is [0.0]
    when [n = 0] and otherwise a nonzero finite float of the sign of [n]:
    a fee that is not zero is never rounded to zero, to an infinity or to
    NaN. *)
Theorem fee_float_sign c st st' delta n :
  update_from_contract c st = (st', inr delta) →
  conversionFee c = inr (VInt n) →
  (n = 0 → delta !! "fee_float" = Some (VFloat (S754_zero false))) ∧
  (n ≠ 0 → ∃ m e, delta !! "fee_float" = Some (VFloat (S754_finite (n <? 0) m e))).
Proof.
  intros (r0 & r1 & fee & v & en & ad & an & _ & Hfee & Hdiv & _ & _ & _ & -> & _)%update_from_contract_inr Hn.
  rewrite Hfee in Hn. injection Hn as ->.
  assert (∃ ff, v = VFloat ff) as [ff ->]
    by (apply py_truediv_int in Hdiv as [-> _]; eauto).
  destruct (truediv_int_sign n ff Hdiv) as [H0 Hne]. split.
  - by intros ->%H0.
  - intros (m & e & ->)%Hne. by exists m, e.
Qed.

Lemma fee_float_sign_witness :
  let r := update_from_contract Sample.contract_read Sample.pool_p1 in
  ∃ m e, returned r.2 !! "fee_float" = Some (VFloat (S754_finite false m e)).
Proof.
  intros r.
  destruct (fee_float_sign Sample.contract_read Sample.pool_p1 r.1 (returned r.2) 3000)
    as [_ H]; [vm_cast_no_check (eq_refl r)|reflexivity|].
  apply H. lia.
Defined.



(** ** The store and the delta after an event *)

(** X3: when [update_from_event] returns, the dictionary it returns is the
    caller's [data], and every entry of it is in the store: the delta never
    says anything the store does not. *)
Theorem delta_in_store ev st seed h' delta :
  update_from_event ev (Heap st seed) = (h', inr delta) →
  data h' = delta ∧ delta ⊆ state h'.
Proof.
  intros (b0 & b1 & Hb & -> & Hrb)%update_from_event_inr. split; [done|].
  simpl. apply map_subseteq_spec. intros k v Hk.
  destruct (decide (k ∈ read_back_keys)) as [Hin|Hout].
  - destruct (read_back_at _ _ _ k Hrb Hin) as [_ <-]. done.
  - rewrite (read_back_other _ _ _ _ Hrb) in Hk by done.
    by apply lookup_union_Some_l.
Qed.

Lemma delta_in_store_witness :
  let r := update_from_event Sample.event_AB (Heap Sample.pool_p1 ∅) in
  data r.1 = data r.1 ∧ data r.1 ⊆ state r.1.
Proof.
  intros r.
  apply (delta_in_store Sample.event_AB Sample.pool_p1 ∅ r.1 (data r.1)).
  vm_cast_no_check (eq_refl r).
Defined.

(** X4: neither method ever removes a field from the store, whether it
    returns or raises. *)
Theorem store_keeps_its_keys :
  (∀ ev st seed, dom st ⊆ dom (state (update_from_event ev (Heap st seed)).1)) ∧
  (∀ c st, dom st ⊆ dom (update_from_contract c st).1).
Proof.
  split.
  - intros ev st seed.
    destruct (update_from_event_store ev st seed) as [->|(b0 & b1 & ->)]; [done|].
    rewrite dom_union_L. apply union_subseteq_r.
  - intros c st.
    destruct (update_from_contract c st) as [st' [e|p]] eqn:Hrun; simpl.
    + by apply update_from_contract_inl in Hrun as ->.
    + apply update_from_contract_inr in Hrun
        as (? & ? & ? & ? & ? & ? & ? & _ & _ & _ & _ & _ & _ & _ & ->).
      rewrite dom_union_L. apply union_subseteq_r.
Qed.

(** X5: [update_from_event] changes no field of the store other than
    [tkn0_balance], [tkn1_balance] and the keys of the seed, whether it
    returns or raises. *)
Theorem update_from_event_frame ev st seed k :
  seed !! k = None → k ≠ "tkn0_balance" → k ≠ "tkn1_balance" →
  state (update_from_event ev (Heap st seed)).1 !! k = st !! k.
Proof.
  intros Hk Hk0 Hk1.
  destruct (update_from_event_store ev st seed) as [->|(b0 & b1 & ->)]; [done|].
  by rewrite written_other, lookup_union, Hk, (left_id_L None _).
Qed.

Lemma update_from_event_frame_witness :
  state (update_from_event Sample.event_AB (Heap Sample.pool_p1 ∅)).1 !! "fee"
  = Some (VInt 3000).
Proof.
  exact (update_from_event_frame Sample.event_AB Sample.pool_p1 ∅ "fee"
           eq_refl ltac:(discriminate) ltac:(discriminate)).
Defined.

(** ** What the branch on the token pair reads *)

(** X8: once [_token1] differs from the pool's [tkn0_address], nothing else
    of the event is read.  Two events whose [_token1] both differ from it
    are treated alike, whatever their other arguments: in particular a
    missing [_token2], [_rateN] or [_rateD] raises nothing. *)
Theorem unmatched_token1_short_circuits st seed a a' tkn0 token1 token1' :
  st !! "tkn0_address" = Some tkn0 →
  a !! "_token1" = Some token1 → py_eq token1 tkn0 = false →
  a' !! "_token1" = Some token1' → py_eq token1' tkn0 = false →
  update_from_event (Event (Some a)) (Heap st seed)
  = update_from_event (Event (Some a')) (Heap st seed).
Proof.
  intros H0 Ht1 He1 Ht1' He1'. unfold update_from_event. run_unfold. simpl.
  rewrite H0. destruct (st !! "tkn1_address"); simpl; [|done].
  by rewrite Ht1, Ht1', He1, He1'.
Qed.

Lemma unmatched_token1_short_circuits_witness :
  update_from_event Sample.event_BA (Heap Sample.pool_p1 ∅)
  = update_from_event (Event (Some Edge.args_other)) (Heap Sample.pool_p1 ∅).
Proof.
  exact (unmatched_token1_short_circuits Sample.pool_p1 ∅ Sample.args_BA
           Edge.args_other (VStr "0xA") (VStr "0xB") (VStr "0xC")
           eq_refl eq_refl eq_refl eq_refl eq_refl).
Defined.

(** X9: a matching event is an absolute refresh of the balances.  What
    [update_from_event] does with it (store, [data], delta or exception)
    does not depend on the [tkn0_balance] and [tkn1_balance] the store had,
    nor on whether it had them. *)
Theorem matched_event_ignores_old_balances ev st st2 seed a A B token1 token2 rateN rateD :
  st !! "tkn0_address" = Some A → st !! "tkn1_address" = Some B →
  ev_args ev = Some a →
  a !! "_token1" = Some token1 → a !! "_token2" = Some token2 →
  py_eq token1 A = true → py_eq token2 B = true →
  a !! "_rateN" = Some rateN → a !! "_rateD" = Some rateD →
  (∀ k, k ≠ "tkn0_balance" → k ≠ "tkn1_balance" → st2 !! k = st !! k) →
  update_from_event ev (Heap st2 seed) = update_from_event ev (Heap st seed).
Proof.
  intros H0 H1 Ha Ht1 Ht2 He1 He2 Hn Hd Hsame.
  assert (balances_of ev st rateN rateD) as Hb by by eapply balances_matched.
  assert (balances_of ev st2 rateN rateD) as Hb2.
  { eapply balances_matched; eauto; by rewrite Hsame. }
  rewrite (update_from_event_tail _ _ _ _ _ Hb), (update_from_event_tail _ _ _ _ _ Hb2).
  do 2 f_equal. apply map_eq. intros k.
  destruct (decide (k = "tkn0_balance")) as [->|?]; [by rewrite !written_tkn0|].
  destruct (decide (k = "tkn1_balance")) as [->|?]; [by rewrite !written_tkn1|].
  by rewrite !written_other, !lookup_union, Hsame.
Qed.

Lemma matched_event_ignores_old_balances_witness :
  update_from_event Sample.event_AB
    (Heap (<["tkn1_balance":=VInt 5]> (delete "tkn0_balance" Sample.pool_p1)) ∅)
  = update_from_event Sample.event_AB (Heap Sample.pool_p1 ∅).
Proof.
  apply (matched_event_ignores_old_balances Sample.event_AB Sample.pool_p1 _ ∅
           Sample.args_AB (VStr "0xA") (VStr "0xB") (VStr "0xA") (VStr "0xB")
           (VInt 150) (VInt 250)); try reflexivity.
  intros k Hk0 Hk1. by rewrite lookup_insert_ne, lookup_delete_ne.
Defined.

(** X10: an event with the pool's token pair that [event_matches_format]
    rejects makes [update_from_event] raise [KeyError: '_rateN'], with the
    store and the caller's [data] untouched. *)
Theorem rejected_format_raises {S} (s : S) st seed a A B token1 token2 :
  st !! "tkn0_address" = Some A → st !! "tkn1_address" = Some B →
  a !! "_token1" = Some token1 → a !! "_token2" = Some token2 →
  py_eq token1 A = true → py_eq token2 B = true →
  (event_matches_format (Event (Some a)) s).2 = inr false →
  update_from_event (Event (Some a)) (Heap st seed)
  = (Heap st seed, inl (KeyError "_rateN")).
Proof.
  intros H0 H1 Ht1 Ht2 He1 He2 Hfmt.
  assert (a !! "_rateN" = None) as Hn.
  { unfold event_matches_format, py_in in Hfmt. run_unfold. simpl in Hfmt.
    injection Hfmt as Hfmt. apply bool_decide_eq_false in Hfmt.
    by apply eq_None_not_Some. }
  unfold update_from_event. run_unfold. simpl.
  rewrite H0, H1. simpl. rewrite Ht1, He1, Ht2. simpl. by rewrite He2, Hn.
Qed.

Lemma rejected_format_raises_witness :
  update_from_event (Event (Some Edge.args_no_rates)) (Heap Sample.pool_p1 ∅)
  = (Heap Sample.pool_p1 ∅, inl (KeyError "_rateN")).
Proof.
  exact (rejected_format_raises () Sample.pool_p1 ∅ Edge.args_no_rates
           (VStr "0xA") (VStr "0xB") (VStr "0xA") (VStr "0xB")
           eq_refl eq_refl eq_refl eq_refl eq_refl eq_refl eq_refl).
Defined.

(** X11: an event with the pool's token pair and [_rateN] but no [_rateD]
    makes [update_from_event] raise [KeyError: '_rateD'] with the store
    untouched, but the caller's [data] already has [tkn0_balance] set to the
    event's [_rateN]. *)
Theorem missing_rateD_marks_data st seed a A B token1 token2 rateN :
  st !! "tkn0_address" = Some A → st !! "tkn1_address" = Some B →
  a !! "_token1" = Some token1 → a !! "_token2" = Some token2 →
  py_eq token1 A = true → py_eq token2 B = true →
  a !! "_rateN" = Some rateN → a !! "_rateD" = None →
  update_from_event (Event (Some a)) (Heap st seed)
  = (Heap st (<["tkn0_balance":=rateN]> seed), inl (KeyError "_rateD")).
Proof.
  intros H0 H1 Ht1 Ht2 He1 He2 Hn Hd.
  unfold update_from_event. run_unfold. simpl.
  rewrite H0, H1. simpl. rewrite Ht1, He1, Ht2. simpl. by rewrite He2, Hn, Hd.
Qed.

Lemma missing_rateD_marks_data_witness :
  update_from_event (Event (Some Edge.args_no_rateD)) (Heap Sample.pool_p1 ∅)
  = (Heap Sample.pool_p1 (<["tkn0_balance":=VInt 150]> ∅),
     inl (KeyError "_rateD")).
Proof.
  exact (missing_rateD_marks_data Sample.pool_p1 ∅ Edge.args_no_rateD
           (VStr "0xA") (VStr "0xB") (VStr "0xA") (VStr "0xB") (VInt 150)
           eq_refl eq_refl eq_refl eq_refl eq_refl eq_refl eq_refl eq_refl).
Defined.

(** ** An event after a contract read *)

(** X12: after a contract read that returned, the read-back of an event
    cannot fail on [anchor], [fee], [fee_float] or [exchange_name].  If the
    branch on the token pair goes through and a [cid] is in the seed or was
    in the store, [update_from_event] returns, and for each of those four
    fields that the seed does not carry the delta has the value of the
    contract read's delta. *)
Theorem event_after_contract c st st1 p ev seed b0 b1 :
  update_from_contract c st = (st1, inr p) →
  balances_of ev st1 b0 b1 →
  is_Some (seed !! "cid") ∨ is_Some (st !! "cid") →
  ∃ delta,
    update_from_event ev (Heap st1 seed)
    = (Heap (with_balances b0 b1 seed ∪ st1) delta, inr delta) ∧
    ∀ k, k ∈ ["anchor"; "fee"; "fee_float"; "exchange_name"] →
         seed !! k = None → delta !! k = p !! k.
Proof.
  intros (r0 & r1 & fee & ff & en & ad & an & _ & _ & _ & _ & _ & _ & Hp & ->)%update_from_contract_inr
         Hb Hcid.
  assert (∀ k, k ∈ ["anchor"; "fee"; "fee_float"; "exchange_name"] →
               is_Some (p !! k) ∧ k ∈ read_back_keys) as Hp4.
  { intros k Hk. rewrite !elem_of_cons, elem_of_nil in Hk. rewrite Hp.
    destruct Hk as [->|[->|[->|[->|[]]]]]; (split; [by eexists|by in_list]). }
  destruct (read_back_total (with_balances b0 b1 seed ∪ (p ∪ st))
              (with_balances b0 b1 seed)) as [delta Hrb].
  { intros k Hk. destruct (read_back_key_not_balance k Hk).
    rewrite written_other, !lookup_union by done.
    unfold read_back_keys in Hk. rewrite !elem_of_cons, elem_of_nil in Hk.
    destruct Hk as [->|[->|[->|[->|[->|[]]]]]].
    2: { assert (p !! "cid" = None) as -> by by rewrite Hp.
         rewrite (left_id_L None _).
         destruct Hcid as [[v ->]|[v ->]];
           [by destruct (st !! "cid")|by destruct (seed !! "cid")]. }
    - destruct (Hp4 "anchor") as [[v ->] _]; [by in_list|].
      by destruct (seed !! "anchor"), (st !! "anchor").
    - destruct (Hp4 "fee") as [[v ->] _]; [by in_list|].
      by destruct (seed !! "fee"), (st !! "fee").
    - destruct (Hp4 "fee_float") as [[v ->] _]; [by in_list|].
      by destruct (seed !! "fee_float"), (st !! "fee_float").
    - destruct (Hp4 "exchange_name") as [[v ->] _]; [by in_list|].
      by destruct (seed !! "exchange_name"), (st !! "exchange_name"). }
  exists delta. split; [apply update_from_event_inr; by eauto|].
  intros k Hk Hseed. destruct (Hp4 k Hk) as [[v Hv] Hin].
  destruct (read_back_at _ _ _ k Hrb Hin) as [_ ->].
  destruct (read_back_key_not_balance k Hin).
  rewrite written_other, !lookup_union, Hseed, Hv by done.
  by destruct (st !! k).
Qed.

Lemma event_after_contract_witness :
  let st := <["cid":=VStr "p1"]> (<["tkn1_address":=VStr "0xB"]>
              (<["tkn0_address":=VStr "0xA"]> Sample.pool_fresh)) in
  let r := update_from_contract Sample.contract_read st in
  ∃ delta,
    update_from_event Sample.event_AB (Heap r.1 ∅)
    = (Heap (with_balances (VInt 150) (VInt 250) ∅ ∪ r.1) delta, inr delta) ∧
    ∀ k, k ∈ ["anchor"; "fee"; "fee_float"; "exchange_name"] →
         (∅ : dict) !! k = None → delta !! k = returned r.2 !! k.
Proof.
  intros st r.
  apply (event_after_contract Sample.contract_read st r.1 (returned r.2)).
  - vm_cast_no_check (eq_refl r).
  - by apply (balances_matched _ _ Sample.args_AB (VStr "0xA") (VStr "0xB")
                (VStr "0xA") (VStr "0xB")).
  - right. by eexists.
Defined.
